(** * slogplus: a shallow embedding of handler.go

    The development follows [handler.go] function by function.  Byte
    buffers ([[]byte]) are lists of characters, Go strings are [string],
    Go's [int], [int64] and [uint64] are [Z] (no arithmetic in the handler
    can leave the 64-bit range: the only arithmetic is on buffer lengths).
    Pointers ([*Handler], [*sync.Pool], the [io.Writer] behind [out],
    [*slog.LevelVar]) are addresses into a [Heap]. *)

From Stdlib Require Import ZArith Ascii String DecimalString DecimalPos DecimalN.
From stdpp Require Import base option list.

Local Open Scope Z_scope.

(** ** Bytes and strings *)

Abbreviation bytes := (list ascii).

(** [append(buf, s...)] for a string [s]. *)
Definition append_str (buf : bytes) (s : string) : bytes :=
  buf ++ list_ascii_of_string s.

(** [append(buf, c)] for a single byte. *)
Definition append_byte (buf : bytes) (c : ascii) : bytes := buf ++ [c].

Infix "+s" := append_str (at level 50, left associativity).
Infix "+b" := append_byte (at level 50, left associativity).

Definition NUL : ascii := Ascii.zero.
Definition LF : ascii := ascii_of_nat 10.

(** ** strconv *)

Module strconv.

(** [strconv.AppendInt(buf, i, 10)]: sign and minimal decimal digits. *)
Definition FormatInt (i : Z) : string := NilZero.string_of_int (Z.to_int i).
Definition AppendInt (buf : bytes) (i : Z) : bytes := buf +s FormatInt i.

(** [strconv.AppendUint(buf, u, 10)]. *)
Definition FormatUint (u : Z) : string :=
  NilZero.string_of_uint (N.to_uint (Z.to_N u)).
Definition AppendUint (buf : bytes) (u : Z) : bytes := buf +s FormatUint u.

(** [strconv.AppendBool]. *)
Definition AppendBool (buf : bytes) (b : bool) : bytes :=
  buf +s (if b then "true" else "false")%string.

End strconv.

(** ** appendInt: fixed-width padding (handler.go, lines 226-243) *)

(** [copy(dst[off:], src)]: Go's [copy] moves [min(len(dst[off:]), len(src))]
    elements and returns; the rest of [dst] is untouched. *)
Definition slice_copy {A} (dst : list A) (off : nat) (src : list A) : list A :=
  let n := Nat.min (length dst - off) (length src) in
  take off dst ++ take n src ++ drop (off + n) dst.

(** [copy(buf[d:], buf[lo:hi])] inside one buffer: [copy] is correct on
    overlapping slices (it behaves as if the source were read first). *)
Definition copy_within (buf : bytes) (d lo hi : nat) : bytes :=
  slice_copy buf d (take (hi - lo) (drop lo buf)).

(** [for i := 0; i < padding; i++ { buf = append(buf, 0) }] *)
Fixpoint append_nuls (padding : nat) (buf : bytes) : bytes :=
  match padding with
  | O => buf
  | S k => append_nuls k (buf +b NUL)
  end.

(** [for i := 0; i < padding; i++ { buf[start+i] = '0' }], with [i]
    counting up from [i0]. *)
Fixpoint fill_zeros (start i0 count : nat) (buf : bytes) : bytes :=
  match count with
  | O => buf
  | S k => fill_zeros start (S i0) k (<[(start + i0)%nat := "0"%char]> buf)
  end.

Definition appendInt (buf : bytes) (n width : Z) : bytes :=
  let start := length buf in
  let buf := strconv.AppendInt buf n in
  let actual := Z.of_nat (length buf - start) in
  if actual <? width then
    let padding := Z.to_nat (width - actual) in
    let buf := append_nuls padding buf in
    let buf := copy_within buf (start + padding) start (length buf - padding) in
    fill_zeros start 0 padding buf
  else buf.

(** What the padding helper is meant to compute: the decimal digits of
    [n], left-padded with ['0'] up to [width]. *)
Definition decimal (n : Z) : bytes :=
  list_ascii_of_string (NilZero.string_of_uint (N.to_uint (Z.to_N n))).

Definition zero_padded (n width : Z) : bytes :=
  repeat "0"%char (Z.to_nat (width - Z.of_nat (length (decimal n)))) ++ decimal n.


(** ** The standard library behind the handler

    [time], [fmt], [runtime], the float and duration formatters and the
    destination's [io.Writer] are external to the repository.  The handler
    uses them through the operations below and nothing else. *)

Class Externals := {
  (** [time.Time] with [IsZero], [Date], [Clock] and [Format(layout)] *)
  Time : Type;
  time_IsZero : Time -> bool;
  time_Date : Time -> Z * Z * Z;
  time_Clock : Time -> Z * Z * Z;
  time_Format : Time -> string -> string;
  (** [float64] and [strconv.AppendFloat(buf, f, 'g', -1, 64)] *)
  Float64 : Type;
  strconv_FormatFloat : Float64 -> string;
  (** [time.Duration.String] on a number of nanoseconds *)
  Duration_String : Z -> string;
  (** the dynamic values behind [KindAny] and [KindLogValuer], printed by
      [fmt.Sprint]; [None] is the nil interface *)
  Any : Type;
  fmt_Sprint : option Any -> string;
  (** [runtime.CallersFrames([]uintptr{pc}).Next()]: file and line *)
  runtime_Frame : Z -> string * Z;
  (** the destination: an [io.Writer] is a state machine whose [Write]
      accepts the bytes and may return an error *)
  Sink : Type;
  error : Type;
  io_Write : Sink -> bytes -> Sink * option error
}.

(** Addresses.  Where the code tests a pointer or an interface against
    nil ([opts *Options], [Level slog.Leveler], [ReplaceAttr]) the model
    has an [option]. *)
Abbreviation loc := nat.

Section Model.
Context {E : Externals}.

(** ** log/slog data *)

(** [slog.Value] by kind, and [slog.Attr]. *)
Inductive Value : Type :=
  | StringValue (s : string)
  | Int64Value (i : Z)
  | Uint64Value (u : Z)
  | Float64Value (f : Float64)
  | BoolValue (b : bool)
  | DurationValue (d : Z)
  | TimeValue (t : Time)
  | GroupValue (g : list Attr)
  | AnyValue (a : option Any)
  | LogValuerValue (a : Any)
with Attr : Type :=
  | mkAttr (Key : string) (Val : Value).

Definition Key (a : Attr) : string := let 'mkAttr k _ := a in k.
Definition Val (a : Attr) : Value := let 'mkAttr _ v := a in v.

(** [slog.Attr{}]: the empty key and the zero [Value], whose kind is
    [KindAny] with a nil interface. *)
Definition zeroAttr : Attr := mkAttr "" (AnyValue None).

(** [a.Equal(slog.Attr{})]: keys equal and values equal.  [Value.Equal]
    is false across kinds and compares the interfaces for [KindAny], so
    only the zero value equals the zero value. *)
Definition isZeroAttr (a : Attr) : bool :=
  String.eqb (Key a) "" &&
  match Val a with AnyValue None => true | _ => false end.

(** [slog.Level] and its [String] method. *)
Definition LevelDebug : Z := -4.
Definition LevelInfo : Z := 0.
Definition LevelWarn : Z := 4.
Definition LevelError : Z := 8.

Definition Level_str (base : string) (val : Z) : string :=
  if Z.eqb val 0 then base
  else (base ++ (if Z.ltb val 0 then "" else "+") ++ strconv.FormatInt val)%string.

Definition Level_String (l : Z) : string :=
  if l <? LevelInfo then Level_str "DEBUG" (l - LevelDebug)
  else if l <? LevelWarn then Level_str "INFO" (l - LevelInfo)
  else if l <? LevelError then Level_str "WARN" (l - LevelWarn)
  else Level_str "ERROR" (l - LevelError).

(** [slog.Record]: the fields [Handle] reads. *)
Record Record := {
  r_Time : Time;
  r_Message : string;
  r_Level : Z;
  r_PC : Z;
  r_Attrs : list Attr
}.




(** [slog.Leveler]: a constant [slog.Level], or a [*slog.LevelVar]. *)
Inductive Leveler :=
  | LevelConst (l : Z)
  | LevelVarPtr (v : loc).

(** ** Options and Handler (handler.go, lines 17-41) *)

Record Options := {
  Level : option Leveler;
  TimeFormat : string;
  AddSource : bool;
  ReplaceAttr : option (list string -> Attr -> Attr)
}.

(** The zero [Options]. *)
Definition Options_zero : Options :=
  {| Level := None; TimeFormat := ""; AddSource := false; ReplaceAttr := None |}.

(** [mu] is the state of the embedded [sync.Mutex] ([true]: locked).  It
    is a field of the struct by value, so the lock's identity is the
    address of the [Handler] it lives in. *)
Record Handler := {
  opts : Options;
  mu : bool;
  out : loc;
  pool : loc;
  groups : list string;
  attrs : list Attr
}.

(** ** Calls of the rewrite hook

    [ReplaceAttr] is a caller-supplied function.  The encoder is written
    in a writer monad that records every invocation of the hook (the group
    path and the attribute passed), so that statements about when the hook
    runs are statements about the code. *)

Definition Calls : Type := list (list string * Attr).
Definition Traced (A : Type) : Type := (A * Calls)%type.

Definition tret {A} (x : A) : Traced A := (x, []).
Definition tbind {A B} (m : Traced A) (f : A -> Traced B) : Traced B :=
  let '(x, c1) := m in let '(y, c2) := f x in (y, c1 ++ c2).
Definition call_hook (f : list string -> Attr -> Attr)
    (groups : list string) (a : Attr) : Traced Attr :=
  (f groups a, [(groups, a)]).

Notation "'do' x <~ m ; k" := (tbind m (fun x => k))
  (at level 10, x name, m at level 100, k at level 200, only parsing).

(** ** appendValue (handler.go, lines 187-223) *)

Fixpoint appendValue (buf : bytes) (v : Value) : bytes :=
  match v with
  | StringValue s => buf +s s
  | Int64Value i => strconv.AppendInt buf i
  | Uint64Value u => strconv.AppendUint buf u
  | Float64Value f => buf +s strconv_FormatFloat f
  | BoolValue b => strconv.AppendBool buf b
  | DurationValue d => buf +s Duration_String d
  | TimeValue t => buf +s time_Format t "2006-01-02T15:04:05Z07:00"
  | GroupValue g =>
      match g with
      | [] => buf
      | _ =>
          let buf := buf +b "{" in
          let buf :=
            (fix loop (i : nat) (l : list Attr) (buf : bytes) : bytes :=
               match l with
               | [] => buf
               | mkAttr k v :: l' =>
                   let buf := if (0 <? i)%nat then buf +b " " else buf in
                   let buf := buf +s k in
                   let buf := buf +b "=" in
                   let buf := appendValue buf v in
                   loop (S i) l' buf
               end) O g buf in
          buf +b "}"
      end
  | AnyValue a => buf +s fmt_Sprint a
  | LogValuerValue a => buf +s fmt_Sprint (Some a)
  end.

(** ** appendAttr (handler.go, lines 162-184) *)

(** [for _, g := range groups { buf = append(buf, g...); buf = append(buf, '.') }] *)
Fixpoint appendGroups (buf : bytes) (groups : list string) : bytes :=
  match groups with
  | [] => buf
  | g :: gs => appendGroups (buf +s g +b ".") gs
  end.

Definition appendAttr (h : Handler) (buf : bytes) (groups : list string)
    (a : Attr) : Traced bytes :=
  do a <~ match ReplaceAttr (opts h) with
          | Some f => call_hook f groups a
          | None => tret a
          end;
  if isZeroAttr a then tret buf
  else
    let buf := buf +b " " in
    let buf := appendGroups buf groups in
    let buf := buf +s Key a in
    let buf := buf +b "=" in
    tret (appendValue buf (Val a)).

(** ** appendTime (handler.go, lines 137-159) *)

Definition defaultTimeFormat : string := "2006/01/02 15:04:05".

Definition appendTime (h : Handler) (buf : bytes) (t : Time) : bytes :=
  if String.eqb (TimeFormat (opts h)) defaultTimeFormat then
    let '(year, month, day) := time_Date t in
    let '(hour, min, sec) := time_Clock t in
    let buf := appendInt buf year 4 in
    let buf := buf +b "/" in
    let buf := appendInt buf month 2 in
    let buf := buf +b "/" in
    let buf := appendInt buf day 2 in
    let buf := buf +b " " in
    let buf := appendInt buf hour 2 in
    let buf := buf +b ":" in
    let buf := appendInt buf min 2 in
    let buf := buf +b ":" in
    let buf := appendInt buf sec 2 in
    buf
  else buf +s time_Format t (TimeFormat (opts h)).

(** ** Handle, steps 1 to 7: composing the line (handler.go, lines 90-130) *)

(** [for _, attr := range as { buf = h.appendAttr(buf, h.groups, attr) }],
    and likewise [r.Attrs(func(a) bool { ...; return true })]. *)
Fixpoint appendAttrs (h : Handler) (buf : bytes) (as_ : list Attr) : Traced bytes :=
  match as_ with
  | [] => tret buf
  | a :: rest =>
      do buf <~ appendAttr h buf (groups h) a;
      appendAttrs h buf rest
  end.

Definition appendSource (h : Handler) (buf : bytes) (r : Record) : bytes :=
  if AddSource (opts h) && negb (Z.eqb (r_PC r) 0) then
    let '(file, line) := runtime_Frame (r_PC r) in
    if negb (String.eqb file "") then
      let buf := buf +s "source=" in
      let buf := buf +s file in
      let buf := buf +b ":" in
      let buf := strconv.AppendInt buf line in
      buf +b " "
    else buf
  else buf.

Definition compose (h : Handler) (r : Record) (buf : bytes) : Traced bytes :=
  (* 1. time *)
  let buf :=
    if negb (String.eqb (TimeFormat (opts h)) "") && negb (time_IsZero (r_Time r))
    then appendTime h buf (r_Time r) +b " "
    else buf in
  (* 2. level *)
  let buf := buf +s Level_String (r_Level r) in
  let buf := buf +b " " in
  (* 3. source *)
  let buf := appendSource h buf r in
  (* 4. bound attributes *)
  do buf <~ appendAttrs h buf (attrs h);
  (* 5. message *)
  let buf := buf +s "msg=" in
  let buf := buf +s r_Message r in
  (* 6. per-call attributes *)
  do buf <~ appendAttrs h buf (r_Attrs r);
  (* 7. newline *)
  tret (buf +b LF).


(** ** The heap

    [*Handler], [*sync.Pool], the destination and [*slog.LevelVar] are
    references: handlers derived from one another share [out] and [pool]
    by address.  An address is an index into the matching table, and
    allocation appends.  Slices ([groups], [attrs]) are kept as values:
    the handler only ever writes to a slice it has just made. *)

(** [sync.Pool] of [*[]byte]: the buffers currently parked in the pool. *)
Definition Pool : Type := list bytes.

Record Heap := {
  handlers : list Handler;
  pools : list Pool;
  sinks : list Sink;
  levelVars : list Z
}.

(** [pool.Get()]: a parked buffer, or [New()], an empty one of capacity 256.
    [sync.Pool] promises no relation between [Put] and [Get]; the model
    hands out the buffer parked last.  [Handle] resets whatever it gets to
    length zero, and no property below rests on which buffer that is. *)
Definition pool_Get (p : Pool) : bytes * Pool :=
  match p with
  | [] => ([], [])
  | b :: p' => (b, p')
  end.

(** [pool.Put(bufp)] *)
Definition pool_Put (b : bytes) (p : Pool) : Pool := b :: p.

(** [LevelVar.Set], on the variable at address [v] *)
Definition LevelVar_Set (v : loc) (l : Z) (σ : Heap) : Heap :=
  {| handlers := handlers σ; pools := pools σ; sinks := sinks σ;
     levelVars := <[v := l]> (levelVars σ) |}.

(** [Leveler.Level()] *)
Definition Leveler_Level (lv : Leveler) (σ : Heap) : option Z :=
  match lv with
  | LevelConst l => Some l
  | LevelVarPtr v => levelVars σ !! v
  end.

(** ** New (handler.go, lines 44-66) *)

Definition set_TimeFormat (o : Options) (f : string) : Options :=
  {| Level := Level o; TimeFormat := f; AddSource := AddSource o;
     ReplaceAttr := ReplaceAttr o |}.

Definition New (out : loc) (opts : option Options) (σ : Heap) : loc * Heap :=
  let pl := length (pools σ) in
  let o := Options_zero in
  let o := match opts with Some o' => o' | None => o end in
  let o := if String.eqb (TimeFormat o) "" then set_TimeFormat o defaultTimeFormat
           else o in
  let h := {| opts := o; mu := false; out := out; pool := pl;
              groups := []; attrs := [] |} in
  (length (handlers σ),
   {| handlers := handlers σ ++ [h]; pools := pools σ ++ [[]];
      sinks := sinks σ; levelVars := levelVars σ |}).

(** ** Enabled (handler.go, lines 69-75) *)

Definition Enabled (p : loc) (level : Z) (σ : Heap) : option bool :=
  h ← handlers σ !! p;
  minLevel ← match Level (opts h) with
             | Some lv => Leveler_Level lv σ
             | None => Some LevelInfo
             end;
  Some (minLevel <=? level).

(** ** Handle (handler.go, lines 78-134)

    Run by one goroutine at a time, [h.mu.Lock()] returns at once when the
    mutex is free and never when it is held; the deferred calls unlock it
    and park the buffer, whatever [Write] returned. *)

Definition Handle (p : loc) (r : Record) (σ : Heap) : option (option error * Heap) :=
  h ← handlers σ !! p;
  pl ← pools σ !! pool h;
  let '(bufp, pl) := pool_Get pl in
  let buf := take 0 bufp in
  if mu h then None
  else
    let buf := fst (compose h r buf) in
    w ← sinks σ !! out h;
    let '(w, err) := io_Write w buf in
    Some (err,
          {| handlers := handlers σ;
             pools := <[pool h := pool_Put buf pl]> (pools σ);
             sinks := <[out h := w]> (sinks σ);
             levelVars := levelVars σ |}).

(** ** WithAttrs and WithGroup (handler.go, lines 246-279) *)

Definition alloc_handler (h : Handler) (σ : Heap) : loc * Heap :=
  (length (handlers σ),
   {| handlers := handlers σ ++ [h]; pools := pools σ; sinks := sinks σ;
      levelVars := levelVars σ |}).

Definition WithAttrs (p : loc) (as_ : list Attr) (σ : Heap) : option (loc * Heap) :=
  h ← handlers σ !! p;
  if (length as_ =? 0)%nat then Some (p, σ)
  else
    let new := replicate (length (attrs h) + length as_) zeroAttr in
    let new := slice_copy new 0 (attrs h) in
    let new := slice_copy new (length (attrs h)) as_ in
    Some (alloc_handler
            {| opts := opts h; mu := false; out := out h; pool := pool h;
               groups := groups h; attrs := new |} σ).

Definition WithGroup (p : loc) (name : string) (σ : Heap) : option (loc * Heap) :=
  h ← handlers σ !! p;
  if String.eqb name "" then Some (p, σ)
  else
    let new := replicate (length (groups h) + 1) ""%string in
    let new := slice_copy new 0 (groups h) in
    let new := <[length (groups h) := name]> new in
    Some (alloc_handler
            {| opts := opts h; mu := false; out := out h; pool := pool h;
               groups := new; attrs := attrs h |} σ).


(** ** logger.go: presets and level variables (lines 26-86) *)

(** [new(LevelVar)] is the zero variable, which stands for [LevelInfo];
    [v.Set(level)] then stores the level. *)
Definition NewLevelVar (level : Z) (σ : Heap) : loc * Heap :=
  let v := length (levelVars σ) in
  let σ := {| handlers := handlers σ; pools := pools σ; sinks := sinks σ;
              levelVars := levelVars σ ++ [0] |} in
  (v, LevelVar_Set v level σ).

(** The options [SetupProduction] and [SetupDevelopment] pass to [Setup]. *)
Definition SetupProduction_opts : Options :=
  {| Level := Some (LevelConst LevelInfo); TimeFormat := "";
     AddSource := false; ReplaceAttr := None |}.

Definition SetupDevelopment_opts : Options :=
  {| Level := Some (LevelConst LevelDebug); TimeFormat := "";
     AddSource := true; ReplaceAttr := None |}.

(** [DefaultPreset] *)
Definition DefaultPreset_Production : Options :=
  {| Level := Some (LevelConst LevelInfo); TimeFormat := "2006/01/02 15:04:05";
     AddSource := false; ReplaceAttr := None |}.

Definition DefaultPreset_Development : Options :=
  {| Level := Some (LevelConst LevelDebug); TimeFormat := "2006/01/02 15:04:05";
     AddSource := true; ReplaceAttr := None |}.

Definition DefaultPreset_Test : Options :=
  {| Level := Some (LevelConst LevelDebug); TimeFormat := "15:04:05";
     AddSource := false; ReplaceAttr := None |}.

(** ** Concurrent calls of Handle

    A goroutine running [h.Handle(r)] takes [h.mu], hands the composed
    line to the destination and releases [h.mu].  The destination is an
    [io.Writer] without synchronisation of its own (the reason for the
    lock): it stores the bytes of a [Write] one by one.  The scratch
    buffer is private to the call and is left out. *)

Inductive action :=
  | ALock (p : loc)
  | AStore (w : loc) (c : ascii)
  | AUnlock (p : loc).

(** Lock [p], store the bytes of [l] to destination [w], unlock [p]. *)
Definition locked_write (p w : loc) (l : bytes) : list action :=
  ALock p :: map (AStore w) l ++ [AUnlock p].

Definition Handle_steps (p : loc) (h : Handler) (r : Record) : list action :=
  locked_write p (out h) (fst (compose h r [])).

Record Conf := {
  c_handlers : list Handler;
  c_dests : list bytes;
  c_threads : list (list action)
}.

Definition set_mu (b : bool) (h : Handler) : Handler :=
  {| opts := opts h; mu := b; out := out h; pool := pool h;
     groups := groups h; attrs := attrs h |}.

(** One step of goroutine [i]; [None] when it has finished or is blocked
    on a held mutex. *)
Definition step (i : nat) (c : Conf) : option Conf :=
  acts ← c_threads c !! i;
  match acts with
  | [] => None
  | ALock p :: rest =>
      h ← c_handlers c !! p;
      if mu h then None
      else Some {| c_handlers := <[p := set_mu true h]> (c_handlers c);
                   c_dests := c_dests c;
                   c_threads := <[i := rest]> (c_threads c) |}
  | AStore w ch :: rest =>
      d ← c_dests c !! w;
      Some {| c_handlers := c_handlers c;
              c_dests := <[w := d +b ch]> (c_dests c);
              c_threads := <[i := rest]> (c_threads c) |}
  | AUnlock p :: rest =>
      h ← c_handlers c !! p;
      Some {| c_handlers := <[p := set_mu false h]> (c_handlers c);
              c_dests := c_dests c;
              c_threads := <[i := rest]> (c_threads c) |}
  end.

(** A schedule names the goroutine that moves next. *)
Fixpoint run (sched : list nat) (c : Conf) : option Conf :=
  match sched with
  | [] => Some c
  | i :: sched' => c' ← step i c; run sched' c'
  end.

Definition finished (c : Conf) : bool :=
  forallb (fun acts => match acts with [] => true | _ => false end) (c_threads c).

(** Two goroutines, [hs !! p1] handling [r1] and [hs !! p2] handling [r2],
    over empty destinations. *)
Definition two_calls (σ : Heap) (p1 p2 : loc) (r1 r2 : Record) : option Conf :=
  h1 ← handlers σ !! p1;
  h2 ← handlers σ !! p2;
  Some {| c_handlers := handlers σ;
          c_dests := replicate (length (sinks σ)) [];
          c_threads := [Handle_steps p1 h1 r1; Handle_steps p2 h2 r2] |}.

End Model.

(** ** A concrete standard library, to run the model

    Times, floats and dynamic values are given by what the library
    reports for them; a destination is an in-memory buffer that either
    accepts every [Write] or fails every [Write] with a fixed error. *)

Record CivilTime := {
  ct_zero : bool;
  ct_date : Z * Z * Z;
  ct_clock : Z * Z * Z;
  ct_format : string -> string
}.

Record MemSink := {
  content : bytes;
  failure : option string
}.

Definition MemSink_Write (w : MemSink) (b : bytes) : MemSink * option string :=
  match failure w with
  | None => ({| content := content w ++ b; failure := None |}, None)
  | Some e => (w, Some e)
  end.

Definition sample : Externals := {|
  Time := CivilTime;
  time_IsZero := ct_zero;
  time_Date := ct_date;
  time_Clock := ct_clock;
  time_Format := ct_format;
  Float64 := string;
  strconv_FormatFloat := fun f => f;
  Duration_String := fun d =>
    if Z.eqb d 0 then "0s"%string else (strconv.FormatInt d ++ "ns")%string;
  Any := string;
  fmt_Sprint := fun a => match a with None => "<nil>"%string | Some s => s end;
  runtime_Frame := fun pc => ("main.go"%string, pc);
  Sink := MemSink;
  error := string;
  io_Write := MemSink_Write
|}.

Module Sample.
#[local] Existing Instance sample.

Definition noTime : CivilTime :=
  {| ct_zero := true; ct_date := (1, 1, 1); ct_clock := (0, 0, 0);
     ct_format := fun _ => ""%string |}.

Definition t_2025 : CivilTime :=
  {| ct_zero := false; ct_date := (2025, 11, 14); ct_clock := (14, 3, 14);
     ct_format := fun _ => ""%string |}.

Definition info (msg : string) (as_ : list Attr) : Record :=
  {| r_Time := noTime; r_Message := msg; r_Level := LevelInfo; r_PC := 0;
     r_Attrs := as_ |}.

Definition warn_2025 : Record :=
  {| r_Time := t_2025; r_Message := "m"; r_Level := LevelWarn; r_PC := 0;
     r_Attrs := [] |}.

Definition String_ (k v : string) : Attr := mkAttr k (StringValue v).
Definition Int_ (k : string) (v : Z) : Attr := mkAttr k (Int64Value v).

(** One healthy destination at address 0, nothing else allocated. *)
Definition heap0 : Heap :=
  {| handlers := []; pools := [];
     sinks := [ {| content := []; failure := None |} ]; levelVars := [] |}.

(** [io.Writer]s that fail. *)
Definition heap_failing (e : string) : Heap :=
  {| handlers := []; pools := [];
     sinks := [ {| content := []; failure := Some e |} ]; levelVars := [] |}.

(** What destination [w] holds, as a string. *)
Definition written (w : loc) (σ : Heap) : option string :=
  s ← sinks σ !! w; Some (string_of_list_ascii (content s)).

Definition line (h : Handler) (r : Record) : string :=
  string_of_list_ascii (fst (compose h r [])).

(** [h := New(w, nil)] on [heap0]: the handler at address 0. *)
Definition heap1 : Heap := snd (New 0 None heap0).
Definition h1 : Handler :=
  {| opts := set_TimeFormat Options_zero defaultTimeFormat; mu := false;
     out := 0; pool := 0; groups := []; attrs := [] |}.

Definition nl : string := String LF EmptyString.

(** A hook that drops the key [password]. *)
Definition dropPassword (groups : list string) (a : Attr) : Attr :=
  if String.eqb (Key a) "password" then zeroAttr else a.

Definition h_redact : Handler :=
  {| opts := {| Level := None; TimeFormat := defaultTimeFormat;
                AddSource := false; ReplaceAttr := Some dropPassword |};
     mu := false; out := 0; pool := 0; groups := [];
     attrs := [String_ "service" "api"] |}.

(** A handler whose threshold is the level variable at address 0. *)
Definition heap_lv : Heap :=
  snd (New 0 (Some {| Level := Some (LevelVarPtr 0); TimeFormat := "";
                      AddSource := false; ReplaceAttr := None |})
         {| handlers := []; pools := [];
            sinks := [ {| content := []; failure := None |} ];
            levelVars := [LevelInfo] |}).
Definition h_lv : Handler :=
  {| opts := {| Level := Some (LevelVarPtr 0); TimeFormat := defaultTimeFormat;
                AddSource := false; ReplaceAttr := None |};
     mu := false; out := 0; pool := 0; groups := []; attrs := [] |}.

(** [New(w, nil)] over a destination that fails with [disk full]. *)
Definition heap_full : Heap := snd (New 0 None (heap_failing "disk full")).

(** Two calls of [Handle] on the handler at address 0, and the state
    after goroutine 0 has run to its fourth store and goroutine 1 has
    tried nothing yet. *)
Definition calls_same : Conf :=
  {| c_handlers := handlers heap1; c_dests := [[]];
     c_threads := [Handle_steps 0 h1 (info "x" []); Handle_steps 0 h1 (info "y" [])] |}.

Definition calls_same_midway : Conf :=
  default calls_same (run [0; 0; 0; 0; 0]%nat calls_same).

(** [slog.Group("user", slog.String("name", "ann"), slog.Int("age", 7))] *)
Definition user_group : list Attr :=
  [mkAttr "name" (StringValue "ann"); mkAttr "age" (Int64Value 7)].

(** A record with a caller at pc 42, which [sample] resolves to
    [main.go:42]. *)
Definition warn_at_42 : Record :=
  {| r_Time := t_2025; r_Message := "m"; r_Level := LevelWarn; r_PC := 42;
     r_Attrs := [mkAttr "k" (BoolValue true)] |}.

Definition h_dev : Handler :=
  {| opts := set_TimeFormat SetupDevelopment_opts defaultTimeFormat; mu := false;
     out := 0; pool := 0; groups := ["db"%string]; attrs := [] |}.

(** [h.WithAttrs(service=api)] over a handler filtered by a level
    variable. *)
Definition derived_lv : loc * Heap :=
  default (0%nat, heap_lv) (WithAttrs 0 [String_ "service" "api"] heap_lv).

Definition failing_sink : MemSink :=
  {| content := []; failure := Some "disk full"%string |}.

(** goroutines 0 and 1 take turns, each for [n] steps *)
Fixpoint alternate (n : nat) : list nat :=
  match n with
  | O => []
  | S k => 0%nat :: 1%nat :: alternate k
  end.
End Sample.

(** ** The line, piece by piece

    The text each step of [Handle] contributes, written without the
    buffer threading, to state what [compose] produces. *)

Definition is_digit (c : ascii) : Prop :=
  ((48 <=? nat_of_ascii c) && (nat_of_ascii c <=? 57))%nat = true.

Section Pieces.
Context {E : Externals}.

(** The entries of a non-empty group value, as the loop in [appendValue]
    writes them, [i] being the index of the first of [l]. *)
Fixpoint appendEntries (i : nat) (l : list Attr) (buf : bytes) : bytes :=
  match l with
  | [] => buf
  | mkAttr k v :: l' =>
      let buf := if (0 <? i)%nat then buf +b " " else buf in
      let buf := buf +s k in
      let buf := buf +b "=" in
      let buf := appendValue buf v in
      appendEntries (S i) l' buf
  end.

(** The attribute that is encoded: the hook's result when a hook is set. *)
Definition rewrite_attr (h : Handler) (groups : list string) (a : Attr) : Attr :=
  match ReplaceAttr (opts h) with
  | Some f => f groups a
  | None => a
  end.

(** [g1.g2. ... gn.] *)
Definition group_prefix (groups : list string) : bytes :=
  flat_map (fun g => list_ascii_of_string g ++ ["."%char]) groups.

(** [ <group.>...<key>=<value>], with its leading space. *)
Definition attr_text (groups : list string) (a : Attr) : bytes :=
  " "%char :: group_prefix groups ++ list_ascii_of_string (Key a)
    ++ "="%char :: appendValue [] (Val a).

(** What one attribute adds to the line. *)
Definition emit (h : Handler) (groups : list string) (a : Attr) : bytes :=
  let a' := rewrite_attr h groups a in
  if isZeroAttr a' then [] else attr_text groups a'.

(** The hook invocations made for a list of attributes. *)
Definition hook_calls (h : Handler) (groups : list string) (l : list Attr) : Calls :=
  match ReplaceAttr (opts h) with
  | Some _ => map (pair groups) l
  | None => []
  end.

(** Steps 1 to 3: timestamp, level, source. *)
Definition header (h : Handler) (r : Record) (buf : bytes) : bytes :=
  let buf :=
    if negb (String.eqb (TimeFormat (opts h)) "") && negb (time_IsZero (r_Time r))
    then appendTime h buf (r_Time r) +b " "
    else buf in
  appendSource h (buf +s Level_String (r_Level r) +b " ") r.

(** The timestamp in the default layout, [2006/01/02 15:04:05]. *)
Definition default_stamp (t : Time) : bytes :=
  let '(year, month, day) := time_Date t in
  let '(hour, min, sec) := time_Clock t in
  appendInt [] year 4 ++ "/"%char :: appendInt [] month 2
    ++ "/"%char :: appendInt [] day 2 ++ " "%char :: appendInt [] hour 2
    ++ ":"%char :: appendInt [] min 2 ++ ":"%char :: appendInt [] sec 2.

(** [<key>=<value>], one entry of a group value. *)
Definition entry_text (a : Attr) : bytes :=
  list_ascii_of_string (Key a) ++ "="%char :: appendValue [] (Val a).

(** Step 1: the timestamp and its separator, when there is one. *)
Definition stamp_text (h : Handler) (r : Record) : bytes :=
  if negb (String.eqb (TimeFormat (opts h)) "") && negb (time_IsZero (r_Time r))
  then
    (if String.eqb (TimeFormat (opts h)) defaultTimeFormat
     then default_stamp (r_Time r)
     else list_ascii_of_string (time_Format (r_Time r) (TimeFormat (opts h))))
      ++ [" "%char]
  else [].

(** Step 3: [source=<file>:<line> ], when there is one. *)
Definition source_text (h : Handler) (r : Record) : bytes :=
  if AddSource (opts h) && negb (Z.eqb (r_PC r) 0) then
    let '(file, line) := runtime_Frame (r_PC r) in
    if negb (String.eqb file "") then
      list_ascii_of_string "source=" ++ list_ascii_of_string file
        ++ ":"%char :: list_ascii_of_string (strconv.FormatInt line) ++ [" "%char]
    else []
  else [].

(** A date and clock whose fields fit the widths of the default layout. *)
Definition fits_layout (t : Time) : Prop :=
  let '(year, month, day) := time_Date t in
  let '(hour, min, sec) := time_Clock t in
  0 <= year < 10000 /\ 0 <= month < 100 /\ 0 <= day < 100 /\
  0 <= hour < 100 /\ 0 <= min < 100 /\ 0 <= sec < 100.

(** The goroutine has taken the mutex and not yet released it. *)
Definition in_section (acts : list action) : bool :=
  match acts with
  | AStore _ _ :: _ | AUnlock _ :: _ => true
  | _ => false
  end.

(** *** Where a goroutine is in its locked write *)

Inductive phase :=
  | Idle
  | Inside (pre suf : bytes)
  | Done.

(** The steps a goroutine writing [l] has left in each phase. *)
Definition prog (p w : loc) (l : bytes) (ph : phase) : list action :=
  match ph with
  | Idle => locked_write p w l
  | Inside _ suf => map (AStore w) suf ++ [AUnlock p]
  | Done => []
  end.

(** The bytes it has stored so far. *)
Definition text (l : bytes) (ph : phase) : bytes :=
  match ph with
  | Idle => []
  | Inside pre _ => pre
  | Done => l
  end.

Definition wf_phase (l : bytes) (ph : phase) : Prop :=
  match ph with
  | Inside pre suf => l = pre ++ suf
  | _ => True
  end.

Definition inside (ph : phase) : bool :=
  match ph with Inside _ _ => true | _ => false end.

(** Two goroutines writing [l1] and [l2] to [w] under the same mutex [p]:
    the mutex is held exactly while one of them is inside, and the
    destination holds what the first to enter wrote, then what the other
    wrote. *)
Definition serial_inv (p w : loc) (l1 l2 : bytes) (c : Conf) : Prop :=
  exists ph1 ph2 h d,
    c_threads c = [prog p w l1 ph1; prog p w l2 ph2] /\
    wf_phase l1 ph1 /\ wf_phase l2 ph2 /\
    c_handlers c !! p = Some h /\
    mu h = (inside ph1 || inside ph2) /\
    c_dests c !! w = Some d /\
    ((d = text l1 ph1 ++ text l2 ph2 /\ (ph2 = Idle \/ ph1 = Done)) \/
     (d = text l2 ph2 ++ text l1 ph1 /\ (ph1 = Idle \/ ph2 = Done))).

End Pieces.

(** * Properties *)

(** ** Buffers *)

Lemma append_str_app (buf : bytes) (s : string) :
  buf +s s = buf ++ list_ascii_of_string s.
Proof. reflexivity. Qed.

Lemma append_nuls_repeat (k : nat) (buf : bytes) :
  append_nuls k buf = buf ++ repeat NUL k.
Proof.
  revert buf; induction k as [|k IH]; intros buf; simpl.
  - by rewrite app_nil_r.
  - rewrite IH. unfold append_byte. by rewrite <- app_assoc.
Qed.

Lemma fill_zeros_segment (start i0 k : nat) (pre mid post : bytes) :
  length pre = (start + i0)%nat -> length mid = k ->
  fill_zeros start i0 k (pre ++ mid ++ post) = pre ++ repeat "0"%char k ++ post.
Proof.
  revert i0 pre mid. induction k as [|k IH]; intros i0 pre mid Hpre Hmid.
  - destruct mid; [done | discriminate].
  - destruct mid as [|c mid]; [discriminate |]. simpl in Hmid. simpl.
    rewrite <- Hpre.
    replace (length pre) with (length pre + 0)%nat by lia.
    rewrite insert_app_r. simpl.
    replace (pre ++ "0"%char :: mid ++ post)
      with ((pre ++ ["0"%char]) ++ mid ++ post) by (by rewrite <- app_assoc).
    rewrite IH.
    + by rewrite <- app_assoc.
    + rewrite length_app. simpl. lia.
    + lia.
Qed.

Lemma slice_copy_tail {A} (pre junk src : list A) :
  length junk = length src ->
  slice_copy (pre ++ junk) (length pre) src = pre ++ src.
Proof.
  intros Hlen. unfold slice_copy.
  rewrite length_app.
  replace (length pre + length junk - length pre)%nat with (length junk) by lia.
  rewrite Hlen, Nat.min_id, firstn_all.
  rewrite take_app_length.
  rewrite drop_ge; [by rewrite app_nil_r |].
  rewrite length_app. lia.
Qed.

(** ** Decimal digits *)

Lemma string_of_uint_digits (d : Decimal.uint) :
  Forall is_digit (list_ascii_of_string (NilEmpty.string_of_uint d)).
Proof.
  induction d; simpl; [constructor | ..];
    (constructor; [reflexivity | assumption]).
Qed.

Lemma decimal_digits (n : Z) : Forall is_digit (decimal n).
Proof.
  unfold decimal, NilZero.string_of_uint.
  destruct (N.to_uint (Z.to_N n)) eqn:Hd;
    try (rewrite <- Hd; apply string_of_uint_digits).
  simpl. constructor; [reflexivity | constructor].
Qed.

Lemma decimal_nonempty (n : Z) : decimal n <> [].
Proof.
  unfold decimal, NilZero.string_of_uint.
  destruct (N.to_uint (Z.to_N n)); simpl; discriminate.
Qed.

(** [decimal n] reads back as [n]: it is the decimal representation. *)
Lemma decimal_value (n : Z) :
  0 <= n ->
  NilZero.uint_of_string (string_of_list_ascii (decimal n))
    = Some (N.to_uint (Z.to_N n)) /\
  Z.of_N (N.of_uint (N.to_uint (Z.to_N n))) = n.
Proof.
  intros Hn. split.
  - unfold decimal. rewrite string_of_list_ascii_of_string.
    apply NilZero.usu.
    destruct (Z.to_N n); simpl; [discriminate |].
    apply DecimalPos.Unsigned.to_uint_nonnil.
  - rewrite DecimalN.Unsigned.of_to. lia.
Qed.

Lemma FormatInt_nonneg (n : Z) :
  0 <= n -> list_ascii_of_string (strconv.FormatInt n) = decimal n.
Proof.
  intros Hn. unfold strconv.FormatInt, decimal.
  destruct n as [|p|p]; [reflexivity | reflexivity | lia].
Qed.

(** ** appendInt *)

(** Whatever the sign of [n], the placeholder loop leaves the formatted
    number behind the zeros. *)
Lemma appendInt_fill (buf : bytes) (n width : Z) :
  let ds := list_ascii_of_string (strconv.FormatInt n) in
  appendInt buf n width
    = buf ++ repeat "0"%char (Z.to_nat (width - Z.of_nat (length ds))) ++ ds.
Proof.
  intros ds. unfold appendInt, strconv.AppendInt.
  rewrite append_str_app. fold ds.
  rewrite length_app.
  replace (length buf + length ds - length buf)%nat with (length ds) by lia.
  destruct (Z.ltb_spec (Z.of_nat (length ds)) width) as [Hlt|Hge].
  - set (p := Z.to_nat (width - Z.of_nat (length ds))).
    rewrite append_nuls_repeat.
    unfold copy_within.
    rewrite !length_app, repeat_length.
    replace (length buf + length ds + p - p - length buf)%nat
      with (length ds) by lia.
    rewrite drop_app3_length, take_app_length.
    replace ((buf ++ ds) ++ repeat NUL p)
      with ((buf ++ take p (ds ++ repeat NUL p)) ++ drop p (ds ++ repeat NUL p))
      by (by rewrite <- !app_assoc, take_drop).
    assert (Htk : length (take p (ds ++ repeat NUL p)) = p).
    { rewrite length_take, length_app, repeat_length. lia. }
    replace (length buf + p)%nat
      with (length (buf ++ take p (ds ++ repeat NUL p)))
      by (rewrite length_app; lia).
    rewrite slice_copy_tail.
    + rewrite <- app_assoc.
      rewrite (fill_zeros_segment (length buf) 0 p buf); [done | lia | done].
    + rewrite length_drop, length_app, repeat_length. lia.
  - replace (Z.to_nat (width - Z.of_nat (length ds))) with O by lia.
    done.
Qed.

Lemma appendInt_app (buf : bytes) (n width : Z) :
  appendInt buf n width = buf ++ appendInt [] n width.
Proof. by rewrite (appendInt_fill buf), (appendInt_fill []). Qed.

Lemma zero_padded_no_NUL (n width : Z) :
  Forall (fun c => c <> NUL) (zero_padded n width).
Proof.
  unfold zero_padded. apply Forall_app. split.
  - apply Forall_forall. intros c Hc%list_elem_of_In%repeat_spec.
    subst c. discriminate.
  - eapply Forall_impl; [apply decimal_digits |].
    intros c Hc ->. discriminate Hc.
Qed.

(** C9. For a non-negative [n], [appendInt buf n width] is [buf] followed
    by the decimal digits of [n] left-padded with ['0'] to [width]; it is
    unpadded when the digits already fill [width]; and no NUL placeholder
    remains in what was appended.  The NUL-then-overwrite loop equals
    direct zero-fill. *)
Theorem appendInt_zero_fill (buf : bytes) (n width : Z) :
  0 <= n ->
  appendInt buf n width = buf ++ zero_padded n width /\
  (width <= Z.of_nat (length (decimal n)) ->
   appendInt buf n width = buf ++ decimal n) /\
  Forall (fun c => c <> NUL) (drop (length buf) (appendInt buf n width)).
Proof.
  intros Hn.
  assert (Heq : appendInt buf n width = buf ++ zero_padded n width).
  { rewrite appendInt_fill. cbv zeta. by rewrite FormatInt_nonneg. }
  split; [exact Heq |]. split.
  - intros Hw. rewrite Heq. unfold zero_padded.
    replace (Z.to_nat (width - Z.of_nat (length (decimal n)))) with O by lia.
    done.
  - rewrite Heq, drop_app_length. apply zero_padded_no_NUL.
Qed.

(** ** The encoder only appends *)

Section Encoding.
Context {E : Externals}.

Lemma Value_nested_ind (P : Value -> Prop) :
  (forall s, P (StringValue s)) ->
  (forall i, P (Int64Value i)) ->
  (forall u, P (Uint64Value u)) ->
  (forall f, P (Float64Value f)) ->
  (forall b, P (BoolValue b)) ->
  (forall d, P (DurationValue d)) ->
  (forall t, P (TimeValue t)) ->
  (forall g, Forall (fun a => P (Val a)) g -> P (GroupValue g)) ->
  (forall a, P (AnyValue a)) ->
  (forall a, P (LogValuerValue a)) ->
  forall v, P v.
Proof.
  intros HS HI HU HF HB HD HT HG HA HL.
  fix IH 1. intros [s|i|u|f|b|d|t|g|a|a].
  8: { apply HG. induction g as [|[k v] g IHg]; constructor.
       - apply IH.
       - apply IHg. }
  all: clear IH; auto.
Qed.

Lemma appendValue_group (buf : bytes) (a : Attr) (g : list Attr) :
  appendValue buf (GroupValue (a :: g))
    = appendEntries 0 (a :: g) (buf +b "{") +b "}".
Proof. reflexivity. Qed.

Lemma appendEntries_app (l : list Attr) :
  Forall (fun a => forall buf, appendValue buf (Val a) = buf ++ appendValue [] (Val a)) l ->
  forall i buf, appendEntries i l buf = buf ++ appendEntries i l [].
Proof.
  induction 1 as [|[k v] l Hv _ IH]; intros i buf; simpl.
  - by rewrite app_nil_r.
  - simpl in Hv.
    rewrite IH, (IH _ (appendValue _ _)), Hv, (Hv (_ +b _)).
    unfold append_byte, append_str.
    destruct (0 <? i)%nat; by rewrite <- ?app_assoc.
Qed.

Lemma appendValue_app (v : Value) :
  forall buf, appendValue buf v = buf ++ appendValue [] v.
Proof.
  induction v as [s|i|u|f|b|d|t|g IHg|a|a] using Value_nested_ind;
    intros buf; try reflexivity.
  destruct g as [|a g]; [by rewrite app_nil_r |].
  rewrite !appendValue_group.
  rewrite (appendEntries_app _ IHg), (appendEntries_app _ IHg _ ([] +b _)).
  unfold append_byte. by rewrite <- !app_assoc.
Qed.

Lemma appendGroups_prefix (groups : list string) (buf : bytes) :
  appendGroups buf groups = buf ++ group_prefix groups.
Proof.
  revert buf. induction groups as [|g gs IH]; intros buf; simpl.
  - by rewrite app_nil_r.
  - rewrite IH. unfold append_byte, append_str. by rewrite <- !app_assoc.
Qed.

Lemma appendAttr_spec (h : Handler) (buf : bytes) (groups : list string) (a : Attr) :
  appendAttr h buf groups a = (buf ++ emit h groups a, hook_calls h groups [a]).
Proof.
  unfold appendAttr, emit, rewrite_attr, hook_calls, call_hook, tbind, tret.
  destruct (ReplaceAttr (opts h)) as [f|]; simpl.
  - destruct (isZeroAttr (f groups a)); simpl; [by rewrite app_nil_r |].
    rewrite appendValue_app, appendGroups_prefix.
    unfold attr_text, append_byte, append_str.
    by rewrite <- !app_assoc.
  - destruct (isZeroAttr a); simpl; [by rewrite app_nil_r |].
    rewrite appendValue_app, appendGroups_prefix.
    unfold attr_text, append_byte, append_str.
    by rewrite <- !app_assoc.
Qed.

Lemma hook_calls_app (h : Handler) (groups : list string) (l1 l2 : list Attr) :
  hook_calls h groups (l1 ++ l2) = hook_calls h groups l1 ++ hook_calls h groups l2.
Proof. unfold hook_calls. destruct (ReplaceAttr (opts h)); [apply map_app | done]. Qed.

Lemma appendAttrs_spec (h : Handler) (l : list Attr) (buf : bytes) :
  appendAttrs h buf l
    = (buf ++ flat_map (emit h (groups h)) l, hook_calls h (groups h) l).
Proof.
  revert buf. induction l as [|a l IH]; intros buf; simpl.
  - unfold tret, hook_calls. rewrite app_nil_r.
    by destruct (ReplaceAttr (opts h)).
  - rewrite appendAttr_spec. unfold tbind. rewrite IH.
    rewrite <- app_assoc.
    by rewrite <- (hook_calls_app h (groups h) [a] l).
Qed.

(** The line [Handle] composes: the header, the bound attributes, the
    message, the per-call attributes and the newline; and the hook is
    called on the attributes, in that order, and on nothing else. *)
Lemma compose_spec (h : Handler) (r : Record) (buf : bytes) :
  compose h r buf
    = (header h r buf
         ++ flat_map (emit h (groups h)) (attrs h)
         ++ list_ascii_of_string "msg=" ++ list_ascii_of_string (r_Message r)
         ++ flat_map (emit h (groups h)) (r_Attrs r) ++ [LF],
       hook_calls h (groups h) (attrs h ++ r_Attrs r)).
Proof.
  unfold compose. fold (header h r buf).
  rewrite appendAttrs_spec. unfold tbind.
  rewrite appendAttrs_spec. unfold tret, append_byte, append_str.
  rewrite hook_calls_app, app_nil_r.
  by rewrite <- !app_assoc.
Qed.

End Encoding.

(** ** The rewrite hook and empty groups *)

Section EncoderProperties.
Context {E : Externals}.

Lemma header_options (h h' : Handler) (r : Record) (buf : bytes) :
  TimeFormat (opts h') = TimeFormat (opts h) ->
  AddSource (opts h') = AddSource (opts h) ->
  header h' r buf = header h r buf.
Proof.
  intros HT HA. unfold header, appendSource, appendTime. by rewrite HT, HA.
Qed.

(** C6. With a rewrite hook [f] configured, every bound and every per-call
    attribute goes through [f] before it is encoded; an attribute for which
    [f] returns the empty attribute adds nothing to the line and the others
    are rendered as they are without it; the hook is invoked on the
    attributes, in order, and on nothing else: neither the level (in the
    header, which does not depend on the hook) nor the message. *)
Theorem hook_rewrites_attributes_only (h : Handler)
    (f : list string -> Attr -> Attr) (r : Record) (buf : bytes) :
  ReplaceAttr (opts h) = Some f ->
  let g := groups h in
  let piece a := if isZeroAttr (f g a) then [] else attr_text g (f g a) in
  fst (compose h r buf)
    = header h r buf ++ flat_map piece (attrs h)
        ++ list_ascii_of_string "msg=" ++ list_ascii_of_string (r_Message r)
        ++ flat_map piece (r_Attrs r) ++ [LF] /\
  snd (compose h r buf) = map (pair g) (attrs h ++ r_Attrs r) /\
  (forall l1 a l2, isZeroAttr (f g a) = true ->
     flat_map piece (l1 ++ a :: l2) = flat_map piece (l1 ++ l2)) /\
  (forall h', TimeFormat (opts h') = TimeFormat (opts h) ->
     AddSource (opts h') = AddSource (opts h) ->
     header h' r buf = header h r buf).
Proof.
  intros Hf g piece. rewrite compose_spec. simpl.
  assert (Hemit : forall a, emit h g a = piece a).
  { intros a. unfold emit, rewrite_attr, piece. by rewrite Hf. }
  repeat split.
  - by rewrite !(flat_map_ext _ _ Hemit).
  - unfold hook_calls. by rewrite Hf.
  - intros l1 a l2 Hz. rewrite !flat_map_app. simpl.
    unfold piece at 2. by rewrite Hz.
  - intros h'. apply header_options.
Qed.

End EncoderProperties.

(** ** Handlers on the heap *)

Section HeapProperties.
Context {E : Externals}.

Lemma make_copy_copy {A} (z : A) (xs ys : list A) :
  slice_copy (slice_copy (replicate (length xs + length ys) z) 0 xs)
    (length xs) ys = xs ++ ys.
Proof.
  assert (H1 : slice_copy (replicate (length xs + length ys) z) 0 xs
               = xs ++ replicate (length ys) z).
  { unfold slice_copy. rewrite length_replicate, Nat.sub_0_r.
    replace (Nat.min (length xs + length ys) (length xs)) with (length xs) by lia.
    rewrite firstn_all, drop_replicate. simpl.
    by replace (length xs + length ys - length xs)%nat with (length ys) by lia. }
  rewrite H1. apply slice_copy_tail. apply length_replicate.
Qed.

Lemma make_copy_set {A} (z x : A) (xs : list A) :
  <[length xs := x]> (slice_copy (replicate (length xs + 1) z) 0 xs) = xs ++ [x].
Proof.
  assert (H1 : slice_copy (replicate (length xs + 1) z) 0 xs = xs ++ [z]).
  { unfold slice_copy. rewrite length_replicate, Nat.sub_0_r.
    replace (Nat.min (length xs + 1) (length xs)) with (length xs) by lia.
    rewrite firstn_all, drop_replicate. simpl.
    by replace (length xs + 1 - length xs)%nat with 1%nat by lia. }
  rewrite H1.
  replace (length xs) with (length xs + 0)%nat at 1 by lia.
  by rewrite insert_app_r.
Qed.

Lemma WithAttrs_alloc (σ : Heap) (p : loc) (h : Handler) (as_ : list Attr) :
  handlers σ !! p = Some h -> as_ <> [] ->
  WithAttrs p as_ σ
    = Some (alloc_handler
              {| opts := opts h; mu := false; out := out h; pool := pool h;
                 groups := groups h; attrs := attrs h ++ as_ |} σ).
Proof.
  intros Hp Hne. unfold WithAttrs. rewrite Hp. simpl.
  destruct as_ as [|a as_]; [done |]. simpl length at 1.
  cbn [Nat.eqb]. by rewrite make_copy_copy.
Qed.

Lemma WithGroup_alloc (σ : Heap) (p : loc) (h : Handler) (name : string) :
  handlers σ !! p = Some h -> name <> ""%string ->
  WithGroup p name σ
    = Some (alloc_handler
              {| opts := opts h; mu := false; out := out h; pool := pool h;
                 groups := groups h ++ [name]; attrs := attrs h |} σ).
Proof.
  intros Hp Hne. unfold WithGroup. rewrite Hp. simpl.
  destruct (String.eqb_spec name "") as [->|_]; [done |].
  by rewrite make_copy_set.
Qed.

Lemma alloc_handler_new (h : Handler) (σ : Heap) :
  handlers (snd (alloc_handler h σ)) !! fst (alloc_handler h σ) = Some h.
Proof.
  simpl. rewrite lookup_app_r by lia. by rewrite Nat.sub_diag.
Qed.

Lemma alloc_handler_old (h : Handler) (σ : Heap) (q : loc) (hq : Handler) :
  handlers σ !! q = Some hq ->
  handlers (snd (alloc_handler h σ)) !! q = Some hq /\ q <> fst (alloc_handler h σ).
Proof.
  intros Hq. simpl. split.
  - by apply lookup_app_l_Some.
  - apply lookup_lt_Some in Hq. lia.
Qed.

(** C7. Binding no attributes, or entering the group with the empty name,
    returns the very handler it was given and changes nothing.  Binding
    attributes or entering a named group allocates a new handler and
    leaves every existing handler, the input included, as it was: its
    bound attributes and its group path are unchanged for any holder. *)
Theorem derive_leaves_input_unchanged (σ : Heap) (p : loc) (h : Handler) :
  handlers σ !! p = Some h ->
  WithAttrs p [] σ = Some (p, σ) /\
  WithGroup p "" σ = Some (p, σ) /\
  (forall as_, as_ <> [] ->
     exists p' σ' h',
       WithAttrs p as_ σ = Some (p', σ') /\ p' <> p /\
       handlers σ' !! p' = Some h' /\
       attrs h' = attrs h ++ as_ /\ groups h' = groups h /\
       handlers σ' !! p = Some h /\
       (forall q hq, handlers σ !! q = Some hq -> handlers σ' !! q = Some hq)) /\
  (forall name, name <> ""%string ->
     exists p' σ' h',
       WithGroup p name σ = Some (p', σ') /\ p' <> p /\
       handlers σ' !! p' = Some h' /\
       attrs h' = attrs h /\ groups h' = groups h ++ [name] /\
       handlers σ' !! p = Some h /\
       (forall q hq, handlers σ !! q = Some hq -> handlers σ' !! q = Some hq)).
Proof.
  intros Hp. repeat split.
  - unfold WithAttrs. by rewrite Hp.
  - unfold WithGroup. by rewrite Hp.
  - intros as_ Hne.
    set (h' := {| opts := opts h; mu := false; out := out h; pool := pool h;
                  groups := groups h; attrs := attrs h ++ as_ |}).
    exists (fst (alloc_handler h' σ)), (snd (alloc_handler h' σ)), h'.
    rewrite (WithAttrs_alloc σ p h) by done.
    destruct (alloc_handler_old h' σ p h Hp) as [Hold Hneq].
    repeat split; try done.
    + apply alloc_handler_new.
    + intros q hq Hq. by apply alloc_handler_old.
  - intros name Hne.
    set (h' := {| opts := opts h; mu := false; out := out h; pool := pool h;
                  groups := groups h ++ [name]; attrs := attrs h |}).
    exists (fst (alloc_handler h' σ)), (snd (alloc_handler h' σ)), h'.
    rewrite (WithGroup_alloc σ p h) by done.
    destruct (alloc_handler_old h' σ p h Hp) as [Hold Hneq].
    repeat split; try done.
    + apply alloc_handler_new.
    + intros q hq Hq. by apply alloc_handler_old.
Qed.

(** C8. [Enabled] compares the level with the threshold it reads from the
    level variable at the time of the call: before an update of the
    variable it answers for the old threshold, after it for the new. *)
Theorem Enabled_rereads_threshold (σ : Heap) (p : loc) (h : Handler)
    (v : loc) (level old new : Z) :
  handlers σ !! p = Some h ->
  Level (opts h) = Some (LevelVarPtr v) ->
  levelVars σ !! v = Some old ->
  Enabled p level σ = Some (old <=? level) /\
  Enabled p level (LevelVar_Set v new σ) = Some (new <=? level).
Proof.
  intros Hp Hl Hv. unfold Enabled. simpl. rewrite Hp. simpl. rewrite Hl. simpl.
  rewrite Hv. split; [done |].
  rewrite list_lookup_insert_eq; [done |]. by eapply lookup_lt_Some.
Qed.

(** C4. [Handle] on a free handler always returns; what it returns is
    exactly what the destination's [Write] returned for the composed line,
    nil or an error; and whichever it is, the scratch buffer is back in the
    pool afterwards. *)
Theorem Handle_parks_buffer_returns_error (σ : Heap) (p : loc) (r : Record)
    (h : Handler) (pl : Pool) (w : Sink) :
  handlers σ !! p = Some h -> mu h = false ->
  pools σ !! pool h = Some pl ->
  sinks σ !! out h = Some w ->
  let line := fst (compose h r []) in
  exists σ',
    Handle p r σ = Some (snd (io_Write w line), σ') /\
    pools σ' !! pool h = Some (line :: snd (pool_Get pl)) /\
    sinks σ' !! out h = Some (fst (io_Write w line)) /\
    handlers σ' = handlers σ.
Proof.
  intros Hp Hmu Hpl Hw line. unfold Handle.
  rewrite Hp. simpl. rewrite Hpl. simpl.
  destruct (pool_Get pl) as [bufp pl'] eqn:Hget.
  rewrite Hmu, take_0. fold line. rewrite Hw. simpl.
  destruct (io_Write w line) as [w' err] eqn:Hwr.
  eexists. split; [reflexivity |]. simpl. repeat split.
  - rewrite list_lookup_insert_eq; [done |]. by eapply lookup_lt_Some.
  - rewrite list_lookup_insert_eq; [done |]. by eapply lookup_lt_Some.
Qed.

End HeapProperties.

(** ** The timestamp *)

Section Timestamps.
Context {E : Externals}.

Lemma appendSource_app (h : Handler) (r : Record) (buf : bytes) :
  appendSource h buf r = buf ++ appendSource h [] r.
Proof.
  unfold appendSource.
  destruct (AddSource (opts h) && negb (r_PC r =? 0)); [| by rewrite app_nil_r].
  destruct (runtime_Frame (r_PC r)) as [file line].
  destruct (negb (String.eqb file "")); [| by rewrite app_nil_r].
  unfold strconv.AppendInt, append_byte, append_str. simpl.
  by rewrite <- !app_assoc.
Qed.

Lemma appendTime_default (h : Handler) (t : Time) :
  TimeFormat (opts h) = defaultTimeFormat ->
  appendTime h [] t = default_stamp t.
Proof.
  intros HT. unfold appendTime, default_stamp. rewrite HT. simpl.
  destruct (time_Date t) as [[year month] day].
  destruct (time_Clock t) as [[hour min] sec].
  unfold append_byte.
  pose proof appendInt_fill as Hfill. cbv zeta in Hfill.
  rewrite !Hfill. simpl. rewrite <- !app_assoc. simpl.
  repeat (f_equal; rewrite <- ?app_assoc; simpl).
Qed.

Lemma header_without_stamp (h : Handler) (r : Record) :
  negb (String.eqb (TimeFormat (opts h)) "") && negb (time_IsZero (r_Time r)) = false ->
  header h r []
    = list_ascii_of_string (Level_String (r_Level r)) ++ " "%char :: appendSource h [] r.
Proof.
  intros Hc. unfold header. rewrite Hc, appendSource_app.
  unfold append_byte, append_str. simpl. by rewrite <- app_assoc.
Qed.

(** C10. Whatever [Options] value (or nil) is given to [New], if its
    [TimeFormat] is empty the handler is built with the default layout:
    every record with a set time gets a timestamp, in that layout, before
    the level.  Only a record without time, or a handler whose
    [TimeFormat] was emptied after construction, gives a line that starts
    with the level. *)
Theorem New_empty_TimeFormat_is_default (out : loc) (o : option Options) (σ : Heap) :
  match o with Some o' => TimeFormat o' = ""%string | None => True end ->
  exists h,
    handlers (snd (New out o σ)) !! fst (New out o σ) = Some h /\
    TimeFormat (opts h) = defaultTimeFormat /\
    (forall r, time_IsZero (r_Time r) = false ->
       exists rest,
         fst (compose h r [])
           = default_stamp (r_Time r) ++ " "%char
               :: list_ascii_of_string (Level_String (r_Level r)) ++ " "%char :: rest) /\
    (forall r, time_IsZero (r_Time r) = true ->
       exists rest,
         fst (compose h r [])
           = list_ascii_of_string (Level_String (r_Level r)) ++ " "%char :: rest) /\
    (forall h' r, TimeFormat (opts h') = ""%string ->
       exists rest,
         fst (compose h' r [])
           = list_ascii_of_string (Level_String (r_Level r)) ++ " "%char :: rest).
Proof.
  intros Ho.
  assert (Hnew : exists h,
    handlers (snd (New out o σ)) !! fst (New out o σ) = Some h /\
    TimeFormat (opts h) = defaultTimeFormat).
  { unfold New. simpl. eexists. split.
    - rewrite lookup_app_r by lia. rewrite Nat.sub_diag. reflexivity.
    - destruct o as [o'|]; simpl; [rewrite Ho |]; reflexivity. }
  destruct Hnew as (h & Hh & HT). exists h. repeat split; try done.
  - intros r Hz. rewrite compose_spec. simpl.
    unfold header. rewrite HT, Hz. simpl.
    rewrite appendTime_default, appendSource_app by done.
    unfold append_byte, append_str.
    rewrite <- ?app_assoc. simpl. rewrite <- ?app_assoc.
    eexists. reflexivity.
  - intros r Hz. rewrite compose_spec. simpl.
    rewrite header_without_stamp by (by rewrite Hz, andb_false_r).
    rewrite <- ?app_assoc. simpl. eexists. reflexivity.
  - intros h' r HT'. rewrite compose_spec. simpl.
    rewrite header_without_stamp by (by rewrite HT').
    rewrite <- ?app_assoc. simpl. eexists. reflexivity.
Qed.

End Timestamps.

(** ** Concurrent calls *)

Section Concurrency.
Context {E : Externals}.

Lemma mu_set_mu (b : bool) (h : Handler) : mu (set_mu b h) = b.
Proof. reflexivity. Qed.

Ltac order_cases H :=
  destruct H as [[? [?|?]]|[? [?|?]]]; subst; try discriminate;
  simpl in *; rewrite ?app_nil_r, <- ?app_assoc; auto.

Lemma serial_inv_step (p w : loc) (l1 l2 : bytes) (i : nat) (c c' : Conf) :
  serial_inv p w l1 l2 c -> step i c = Some c' -> serial_inv p w l1 l2 c'.
Proof.
  intros (ph1 & ph2 & h & d & Hth & Hwf1 & Hwf2 & Hh & Hmu & Hd & Hord) Hstep.
  unfold step in Hstep. rewrite Hth in Hstep.
  destruct i as [|[|i]]; simpl in Hstep; [| | discriminate].
  - (* goroutine 0 moves *)
    destruct ph1 as [|pre suf|]; simpl in Hstep; [| | discriminate].
    + rewrite Hh in Hstep. simpl in Hstep.
      destruct (mu h) eqn:Hm; [discriminate |].
      injection Hstep as <-. simpl in Hmu.
      exists (Inside [] l1), ph2, (set_mu true h), d. simpl.
      rewrite list_lookup_insert_eq by (by eapply lookup_lt_Some).
      repeat split; try done.
      destruct ph2; try discriminate; order_cases Hord.
    + destruct suf as [|ch suf]; simpl in Hstep.
      * rewrite Hh in Hstep. simpl in Hstep. injection Hstep as <-.
        exists Done, ph2, (set_mu false h), d. simpl in *.
        rewrite list_lookup_insert_eq by (by eapply lookup_lt_Some).
        rewrite app_nil_r in Hwf1. subst l1.
        repeat split; try done; order_cases Hord.
      * rewrite Hd in Hstep. simpl in Hstep. injection Hstep as <-.
        exists (Inside (pre ++ [ch]) suf), ph2, h, (d ++ [ch]). simpl in *.
        rewrite list_lookup_insert_eq by (by eapply lookup_lt_Some).
        repeat split; try done; [by rewrite <- app_assoc |].
        unfold append_byte. order_cases Hord.
  - (* goroutine 1 moves *)
    destruct ph2 as [|pre suf|]; simpl in Hstep; [| | discriminate].
    + rewrite Hh in Hstep. simpl in Hstep.
      destruct (mu h) eqn:Hm; [discriminate |].
      injection Hstep as <-. simpl in Hmu. rewrite orb_false_r in Hmu.
      exists ph1, (Inside [] l2), (set_mu true h), d. simpl.
      rewrite list_lookup_insert_eq by (by eapply lookup_lt_Some).
      rewrite orb_true_r.
      repeat split; try done.
      destruct ph1; try discriminate; order_cases Hord.
    + destruct suf as [|ch suf]; simpl in Hstep.
      * rewrite Hh in Hstep. simpl in Hstep. injection Hstep as <-.
        exists ph1, Done, (set_mu false h), d. simpl in *.
        rewrite list_lookup_insert_eq by (by eapply lookup_lt_Some).
        rewrite app_nil_r in Hwf2. subst l2.
        repeat split; try done; order_cases Hord.
      * rewrite Hd in Hstep. simpl in Hstep. injection Hstep as <-.
        exists ph1, (Inside (pre ++ [ch]) suf), h, (d ++ [ch]). simpl in *.
        rewrite list_lookup_insert_eq by (by eapply lookup_lt_Some).
        repeat split; try done; [by rewrite <- app_assoc |].
        unfold append_byte. order_cases Hord.
Qed.

Lemma serial_inv_run (p w : loc) (l1 l2 : bytes) (sched : list nat) :
  forall c c', serial_inv p w l1 l2 c -> run sched c = Some c' ->
  serial_inv p w l1 l2 c'.
Proof.
  induction sched as [|i sched IH]; intros c c' Hinv Hrun; simpl in Hrun.
  - by injection Hrun as <-.
  - destruct (step i c) as [c1|] eqn:Hstep; [| discriminate].
    simpl in Hrun. eapply IH; [| exact Hrun].
    by eapply serial_inv_step.
Qed.

(** Two calls that go through the same mutex never interleave: however
    the goroutines are scheduled, once both have finished the destination
    holds one whole line followed by the other. *)
Lemma same_mutex_serializes (p w : loc) (l1 l2 : bytes)
    (hs : list Handler) (ds : list bytes) (h : Handler)
    (sched : list nat) (c' : Conf) :
  hs !! p = Some h -> mu h = false -> ds !! w = Some [] ->
  run sched {| c_handlers := hs; c_dests := ds;
               c_threads := [locked_write p w l1; locked_write p w l2] |} = Some c' ->
  finished c' = true ->
  c_dests c' !! w = Some (l1 ++ l2) \/ c_dests c' !! w = Some (l2 ++ l1).
Proof.
  intros Hh Hmu Hd Hrun Hfin.
  assert (Hinv : serial_inv p w l1 l2 c').
  { eapply serial_inv_run; [| exact Hrun].
    exists Idle, Idle, h, []. simpl. repeat split; auto. }
  destruct Hinv as (ph1 & ph2 & h' & d & Hth & Hwf1 & Hwf2 & _ & _ & Hd' & Hord).
  unfold finished in Hfin. rewrite Hth in Hfin. simpl in Hfin.
  assert (ph1 = Done) as ->.
  { destruct ph1 as [|pre suf|]; simpl in Hfin; try done.
    destruct suf; simpl in Hfin; done. }
  assert (ph2 = Done) as ->.
  { destruct ph2 as [|pre suf|]; simpl in Hfin; try done.
    destruct suf; simpl in Hfin; done. }
  simpl in Hord. rewrite Hd'.
  destruct Hord as [[-> _]|[-> _]]; auto.
Qed.

(** In particular two calls of [Handle] on the same handler. *)
Lemma same_handler_calls_serialize (σ : Heap) (p : loc) (h : Handler)
    (r1 r2 : Record) (c c' : Conf) (sched : list nat) :
  handlers σ !! p = Some h -> mu h = false ->
  (out h < length (sinks σ))%nat ->
  two_calls σ p p r1 r2 = Some c ->
  run sched c = Some c' -> finished c' = true ->
  let l1 := fst (compose h r1 []) in
  let l2 := fst (compose h r2 []) in
  c_dests c' !! out h = Some (l1 ++ l2) \/ c_dests c' !! out h = Some (l2 ++ l1).
Proof.
  intros Hp Hmu Hout Hc Hrun Hfin l1 l2.
  unfold two_calls in Hc. rewrite Hp in Hc. simpl in Hc. injection Hc as <-.
  eapply same_mutex_serializes; eauto.
  by apply lookup_replicate_2.
Qed.

End Concurrency.

(** ** The chain at encode time *)

Section Chain.
Context {E : Externals}.

(** C2, as the code has it. Binding [A] and then entering a group gives a
    handler whose bound attributes are the earlier ones followed by [A],
    in the order of [A]; when it encodes a record, every bound attribute
    is written with the group path of the encoding handler, the group
    entered after the binding included, exactly like the per-call
    attributes. *)
Theorem bound_attrs_take_encoding_group_path (σ : Heap) (p : loc) (h : Handler)
    (A : list Attr) (name : string) (r : Record) :
  handlers σ !! p = Some h -> A <> [] -> name <> ""%string ->
  let g := groups h ++ [name] in
  let piece a :=
    let a' := rewrite_attr h g a in
    if isZeroAttr a' then [] else attr_text g a' in
  exists p1 σ1 p2 σ2 h2,
    WithAttrs p A σ = Some (p1, σ1) /\
    WithGroup p1 name σ1 = Some (p2, σ2) /\
    handlers σ2 !! p2 = Some h2 /\
    attrs h2 = attrs h ++ A /\ groups h2 = g /\
    fst (compose h2 r [])
      = header h2 r [] ++ flat_map piece (attrs h ++ A)
          ++ list_ascii_of_string "msg=" ++ list_ascii_of_string (r_Message r)
          ++ flat_map piece (r_Attrs r) ++ [LF].
Proof.
  intros Hp HA Hname g piece.
  set (hA := {| opts := opts h; mu := false; out := out h; pool := pool h;
                groups := groups h; attrs := attrs h ++ A |}).
  set (hG := {| opts := opts h; mu := false; out := out h; pool := pool h;
                groups := g; attrs := attrs h ++ A |}).
  exists (fst (alloc_handler hA σ)), (snd (alloc_handler hA σ)).
  exists (fst (alloc_handler hG (snd (alloc_handler hA σ)))),
    (snd (alloc_handler hG (snd (alloc_handler hA σ)))), hG.
  split; [exact (WithAttrs_alloc σ p h A Hp HA) |].
  split.
  { rewrite (WithGroup_alloc _ _ hA); [done | apply alloc_handler_new | done]. }
  split; [apply alloc_handler_new |].
  repeat split.
  rewrite compose_spec. simpl. reflexivity.
Qed.



End Chain.

(** * Concrete runs

    The model run on the handlers of the README and of the tests, with the
    concrete library [sample]. *)

Section Runs.
Import Sample.
#[local] Existing Instance sample.

Lemma appendInt_zero_fill_witness :
  0 <= 7 /\
  (appendInt (list_ascii_of_string "ab") 7 4
     = list_ascii_of_string "ab" ++ zero_padded 7 4 /\
   (4 <= Z.of_nat (length (decimal 7)) ->
    appendInt (list_ascii_of_string "ab") 7 4
      = list_ascii_of_string "ab" ++ decimal 7) /\
   Forall (fun c => c <> NUL)
     (drop (length (list_ascii_of_string "ab"))
        (appendInt (list_ascii_of_string "ab") 7 4))).
Proof.
  split; [lia |].
  apply (appendInt_zero_fill (list_ascii_of_string "ab") 7 4). lia.
Defined.

Example appendInt_pads : string_of_list_ascii (appendInt [] 7 4) = "0007"%string.
Proof. reflexivity. Qed.

Example appendInt_wide : string_of_list_ascii (appendInt [] 2025 2) = "2025"%string.
Proof. reflexivity. Qed.

(** C1. With one bound attribute, as in the README's [request_id]
    example, the line has two spaces between the level and the bound
    attribute and none between the bound attribute and [msg=]; the format
    asks for one space in each place. *)
Theorem bound_attr_line_misses_separator :
  let r := {| r_Time := t_2025; r_Message := "start"; r_Level := LevelInfo;
              r_PC := 0; r_Attrs := [String_ "method" "GET"] |} in
  let out :=
    '(p, σ) ← WithAttrs 0 [String_ "request_id" "req-12345"] heap1;
    '(_, σ) ← Handle p r σ;
    written 0 σ in
  out = Some ("2025/11/14 14:03:14 INFO  request_id=req-12345msg=start method=GET" ++ nl)%string /\
  out <> Some ("2025/11/14 14:03:14 INFO request_id=req-12345 msg=start method=GET" ++ nl)%string.
Proof. split; [vm_compute; reflexivity | vm_compute; discriminate]. Qed.

(** Without bound attributes the line has the format. *)
Example unbound_line :
  ('(_, σ) ← Handle 0 (info "svc up" [Int_ "port" 8080]) heap1; written 0 σ)
    = Some ("INFO msg=svc up port=8080" ++ nl)%string.
Proof. vm_compute. reflexivity. Qed.

(** C2 does not hold with the group path of bind time: [service=api] is
    bound before the group [request] is entered, and is written as
    [request.service=api]. *)
Lemma bound_attr_gets_later_group :
  let chain :=
    '(p, σ) ← WithAttrs 0 [String_ "service" "api"] heap1;
    WithGroup p "request" σ in
  let out :=
    '(p, σ) ← chain;
    '(_, σ) ← Handle p (info "hello" [String_ "method" "GET"; String_ "path" "/x"]) σ;
    written 0 σ in
  let bound :=
    '(p, σ) ← chain;
    h ← handlers σ !! p;
    Some (fst (appendAttrs h [] (attrs h))) in
  out = Some ("INFO  request.service=apimsg=hello request.method=GET request.path=/x" ++ nl)%string /\
  bound = Some (list_ascii_of_string " request.service=api") /\
  bound <> Some (attr_text [] (String_ "service" "api")).
Proof.
  split; [vm_compute; reflexivity |].
  split; [vm_compute; reflexivity |].
  vm_compute. discriminate.
Qed.

Lemma bound_attrs_take_encoding_group_path_witness :
  exists p1 σ1 p2 σ2 h2,
    WithAttrs 0 [String_ "service" "api"] heap1 = Some (p1, σ1) /\
    WithGroup p1 "request" σ1 = Some (p2, σ2) /\
    handlers σ2 !! p2 = Some h2 /\
    attrs h2 = [String_ "service" "api"] /\ groups h2 = ["request"%string] /\
    fst (compose h2 (info "hello" [String_ "method" "GET"]) [])
      = list_ascii_of_string
          ("INFO  request.service=apimsg=hello request.method=GET" ++ nl)%string.
Proof.
  assert (H0 : handlers heap1 !! 0%nat = Some h1) by reflexivity.
  assert (HA : [String_ "service" "api"] <> []) by discriminate.
  assert (HN : "request"%string <> ""%string) by discriminate.
  destruct (bound_attrs_take_encoding_group_path heap1 0 h1
              [String_ "service" "api"] "request"
              (info "hello" [String_ "method" "GET"]) H0 HA HN)
    as (p1 & σ1 & p2 & σ2 & h2 & HW & HG & Hh & Ha & Hg & Hline).
  exists p1, σ1, p2, σ2, h2. repeat split; try assumption.
  rewrite Hline. unfold header, appendSource, appendTime.
  injection HW as <- <-. injection HG as <- <-.
  injection Hh as <-. vm_compute. reflexivity.
Defined.



Lemma hook_rewrites_attributes_only_witness :
  let r := info "login" [String_ "username" "admin"; String_ "password" "secret123"] in
  ReplaceAttr (opts h_redact) = Some dropPassword /\
  fst (compose h_redact r [])
    = list_ascii_of_string ("INFO  service=apimsg=login username=admin" ++ nl)%string /\
  snd (compose h_redact r [])
    = [([], String_ "service" "api"); ([], String_ "username" "admin");
       ([], String_ "password" "secret123")].
Proof.
  intros r. split; [reflexivity |].
  destruct (hook_rewrites_attributes_only h_redact dropPassword r [] eq_refl)
    as (Hline & Hcalls & _ & _).
  split.
  - rewrite Hline. vm_compute. reflexivity.
  - rewrite Hcalls. reflexivity.
Defined.

Lemma derive_leaves_input_unchanged_witness :
  handlers heap1 !! 0%nat = Some h1 /\
  WithAttrs 0 [] heap1 = Some (0%nat, heap1) /\
  WithGroup 0 "" heap1 = Some (0%nat, heap1) /\
  (exists p' σ' h',
     WithAttrs 0 [String_ "service" "api"] heap1 = Some (p', σ') /\ p' <> 0%nat /\
     handlers σ' !! p' = Some h' /\
     attrs h' = [String_ "service" "api"] /\ groups h' = [] /\
     handlers σ' !! 0%nat = Some h1) /\
  (exists p' σ' h',
     WithGroup 0 "request" heap1 = Some (p', σ') /\ p' <> 0%nat /\
     handlers σ' !! p' = Some h' /\
     attrs h' = [] /\ groups h' = ["request"%string] /\
     handlers σ' !! 0%nat = Some h1).
Proof.
  assert (H0 : handlers heap1 !! 0%nat = Some h1) by reflexivity.
  destruct (derive_leaves_input_unchanged heap1 0 h1 H0) as (HA0 & HG0 & HA & HG).
  split; [exact H0 |]. split; [exact HA0 |]. split; [exact HG0 |]. split.
  - destruct (HA [String_ "service" "api"]) as (p' & σ' & h' & H1 & H2 & H3 & H4 & H5 & H6 & _);
      [discriminate |].
    exists p', σ', h'. repeat split; assumption.
  - destruct (HG "request"%string) as (p' & σ' & h' & H1 & H2 & H3 & H4 & H5 & H6 & _);
      [discriminate |].
    exists p', σ', h'. repeat split; assumption.
Defined.

Lemma Enabled_rereads_threshold_witness :
  handlers heap_lv !! 0%nat = Some h_lv /\
  Enabled 0 LevelDebug heap_lv = Some false /\
  Enabled 0 LevelDebug (LevelVar_Set 0 LevelDebug heap_lv) = Some true.
Proof.
  split; [reflexivity |].
  exact (Enabled_rereads_threshold heap_lv 0 h_lv 0 LevelDebug LevelInfo LevelDebug
           eq_refl eq_refl eq_refl).
Defined.

Lemma Handle_parks_buffer_returns_error_witness :
  let r := info "hello" [] in
  let line := list_ascii_of_string ("INFO msg=hello" ++ nl)%string in
  exists σ',
    Handle 0 r heap_full = Some (Some "disk full"%string, σ') /\
    pools σ' !! 0%nat = Some [line] /\
    sinks σ' !! 0%nat = Some {| content := []; failure := Some "disk full"%string |} /\
    handlers σ' = handlers heap_full.
Proof.
  intros r line.
  exact (Handle_parks_buffer_returns_error heap_full 0 r h1 []
           {| content := []; failure := Some "disk full"%string |}
           eq_refl eq_refl eq_refl eq_refl).
Defined.

Lemma New_empty_TimeFormat_is_default_witness :
  let o := {| Level := None; TimeFormat := ""; AddSource := false;
              ReplaceAttr := None |} in
  TimeFormat o = ""%string /\
  exists h,
    handlers (snd (New 0 (Some o) heap0)) !! fst (New 0 (Some o) heap0) = Some h /\
    TimeFormat (opts h) = defaultTimeFormat /\
    exists rest,
      fst (compose h warn_2025 [])
        = list_ascii_of_string "2025/11/14 14:03:14 WARN " ++ rest.
Proof.
  intros o. split; [reflexivity |].
  destruct (New_empty_TimeFormat_is_default 0 (Some o) heap0 eq_refl)
    as (h & Hh & HT & Hset & _ & _).
  exists h. split; [exact Hh |]. split; [exact HT |].
  destruct (Hset warn_2025 eq_refl) as (rest & Hrest).
  exists rest. rewrite Hrest. reflexivity.
Defined.

(** C3. A handler derived with [WithAttrs] is a new [Handler], with a
    mutex of its own, writing to the same destination.  Two goroutines,
    one calling [Handle] on the parent and one on the derived handler, can
    both be inside their locked sections at once, and the bytes of their
    two lines interleave at the destination. *)
Theorem derived_handler_lines_interleave :
  let r1 := info "x" [] in
  let r2 := info "y" [] in
  let chain := WithAttrs 0 [String_ "a" "1"] heap1 in
  let start := '(p, σ) ← chain; two_calls σ 0 p r1 r2 in
  let dest (c : option Conf) :=
    c ← c; d ← c_dests c !! 0%nat; Some (string_of_list_ascii d) in
  ('(p, σ) ← chain; h ← handlers σ !! 0%nat; h' ← handlers σ !! p;
   Some (p, out h, out h')) = Some (1%nat, 0%nat, 0%nat) /\
  (c ← start; c ← run [0; 1]%nat c; Some (map mu (c_handlers c)))
    = Some [true; true] /\
  (c ← start; c ← run (alternate 13 ++ repeat 1%nat 4) c; Some (finished c))
    = Some true /\
  dest (c ← start; run (alternate 13 ++ repeat 1%nat 4) c)
    = Some ("IINNFFOO  m sag==1xm" ++ nl ++ "sg=y" ++ nl)%string /\
  dest (c ← start; run (repeat 0%nat 13 ++ repeat 1%nat 17) c)
    = Some ("INFO msg=x" ++ nl ++ "INFO  a=1msg=y" ++ nl)%string /\
  dest (c ← start; run (repeat 1%nat 17 ++ repeat 0%nat 13) c)
    = Some ("INFO  a=1msg=y" ++ nl ++ "INFO msg=x" ++ nl)%string.
Proof.
  repeat (split; [vm_compute; reflexivity |]). vm_compute. reflexivity.
Qed.

(** On one handler the same two calls cannot interleave. *)
Example same_handler_lines_whole (sched : list nat) (c c' : Conf) :
  two_calls heap1 0 0 (info "x" []) (info "y" []) = Some c ->
  run sched c = Some c' -> finished c' = true ->
  c_dests c' !! 0%nat
    = Some (list_ascii_of_string ("INFO msg=x" ++ nl ++ "INFO msg=y" ++ nl)%string) \/
  c_dests c' !! 0%nat
    = Some (list_ascii_of_string ("INFO msg=y" ++ nl ++ "INFO msg=x" ++ nl)%string).
Proof.
  intros Hc Hrun Hfin.
  exact (same_handler_calls_serialize heap1 0 h1 (info "x" []) (info "y" []) c c' sched
           eq_refl eq_refl (le_n 1) Hc Hrun Hfin).
Qed.

End Runs.

(** * Further properties of the encoder *)

(** ** Widths *)

Lemma decimal_length_2 (n : Z) : 0 <= n < 100 -> (length (decimal n) <= 2)%nat.
Proof.
  intros Hn.
  assert (Hall : forallb (fun i => (length (decimal (Z.of_nat i)) <=? 2)%nat)
                   (seq 0 100) = true) by (vm_compute; reflexivity).
  rewrite forallb_forall in Hall.
  specialize (Hall (Z.to_nat n)). rewrite Z2Nat.id in Hall by lia.
  apply Nat.leb_le, Hall, in_seq. lia.
Qed.

Lemma decimal_length_4 (n : Z) : 0 <= n < 10000 -> (length (decimal n) <= 4)%nat.
Proof.
  intros Hn.
  assert (Hall : forallb (fun i => (length (decimal (Z.of_nat i)) <=? 4)%nat)
                   (seq 0 (Z.to_nat 10000)) = true) by (vm_compute; reflexivity).
  rewrite forallb_forall in Hall.
  specialize (Hall (Z.to_nat n)). rewrite Z2Nat.id in Hall by lia.
  apply Nat.leb_le, Hall, in_seq. lia.
Qed.

Lemma appendInt_exact_width (n width : Z) :
  0 <= n -> Z.of_nat (length (decimal n)) <= width ->
  length (appendInt [] n width) = Z.to_nat width.
Proof.
  intros Hn Hw. rewrite appendInt_fill. cbv zeta.
  rewrite FormatInt_nonneg by done. simpl.
  rewrite length_app, repeat_length. lia.
Qed.

(** X1. Whatever the sign of [n], [appendInt] appends
    [max(width, len(FormatInt n))] bytes and never touches the bytes that
    were in the buffer. *)
Theorem appendInt_length (buf : bytes) (n width : Z) :
  let digits := Z.of_nat (length (list_ascii_of_string (strconv.FormatInt n))) in
  length (appendInt buf n width) = (length buf + Z.to_nat (Z.max width digits))%nat /\
  take (length buf) (appendInt buf n width) = buf.
Proof.
  intros digits. rewrite appendInt_fill. cbv zeta. split.
  - rewrite !length_app, repeat_length. unfold digits. lia.
  - apply take_app_length.
Qed.

(** X2. For a negative [n] the zeros go in front of the minus sign:
    [appendInt(buf, -5, 4)] is [00-5]. *)
Theorem appendInt_negative_pads_before_sign (buf : bytes) (n width : Z) :
  n < 0 ->
  appendInt buf n width
    = buf ++ repeat "0"%char (Z.to_nat (width - 1 - Z.of_nat (length (decimal (- n)))))
          ++ "-"%char :: decimal (- n).
Proof.
  intros Hn. rewrite appendInt_fill. cbv zeta.
  assert (Hfmt : list_ascii_of_string (strconv.FormatInt n) = "-"%char :: decimal (- n)).
  { destruct n as [|q|q]; [lia | lia |]. reflexivity. }
  rewrite Hfmt. simpl length.
  do 3 f_equal. lia.
Qed.

Section EncoderShape.
Context {E : Externals}.

Lemma appendTime_app (h : Handler) (t : Time) (buf : bytes) :
  appendTime h buf t = buf ++ appendTime h [] t.
Proof.
  unfold appendTime.
  destruct (String.eqb (TimeFormat (opts h)) defaultTimeFormat); [| reflexivity].
  destruct (time_Date t) as [[year month] day].
  destruct (time_Clock t) as [[hour min] sec].
  unfold append_byte.
  pose proof appendInt_fill as Hfill. cbv zeta in Hfill.
  rewrite !Hfill. simpl. rewrite <- !app_assoc. simpl.
  repeat (f_equal; rewrite <- ?app_assoc; simpl).
Qed.

Lemma header_app (h : Handler) (r : Record) (buf : bytes) :
  header h r buf = buf ++ header h r [].
Proof.
  unfold header.
  rewrite appendSource_app, (appendSource_app h r ((_ +s _) +b _)).
  destruct (negb (String.eqb (TimeFormat (opts h)) "") && negb (time_IsZero (r_Time r))).
  - rewrite appendTime_app. unfold append_byte, append_str.
    by rewrite <- !app_assoc.
  - unfold append_byte, append_str. by rewrite <- !app_assoc.
Qed.

(** X3. In the default layout, a time whose fields fit the layout (year
    below 10000) is written as exactly 19 bytes, with [/] at offsets 4 and
    7, a space at 10 and [:] at 13 and 16. *)
Theorem appendTime_default_is_19_bytes (h : Handler) (buf : bytes) (t : Time) :
  TimeFormat (opts h) = defaultTimeFormat -> fits_layout t ->
  exists stamp,
    appendTime h buf t = buf ++ stamp /\ length stamp = 19%nat /\
    stamp !! 4%nat = Some "/"%char /\ stamp !! 7%nat = Some "/"%char /\
    stamp !! 10%nat = Some " "%char /\
    stamp !! 13%nat = Some ":"%char /\ stamp !! 16%nat = Some ":"%char.
Proof.
  intros HT Hfit. exists (default_stamp t).
  rewrite appendTime_app, appendTime_default by done.
  split; [reflexivity |].
  unfold fits_layout in Hfit. unfold default_stamp.
  destruct (time_Date t) as [[year month] day].
  destruct (time_Clock t) as [[hour min] sec].
  destruct Hfit as (Hy & Hmo & Hd & Hh & Hmi & Hs).
  pose proof (appendInt_exact_width year 4 (proj1 Hy)) as Ly.
  pose proof (appendInt_exact_width month 2 (proj1 Hmo)) as Lmo.
  pose proof (appendInt_exact_width day 2 (proj1 Hd)) as Ld.
  pose proof (appendInt_exact_width hour 2 (proj1 Hh)) as Lh.
  pose proof (appendInt_exact_width min 2 (proj1 Hmi)) as Lmi.
  pose proof (appendInt_exact_width sec 2 (proj1 Hs)) as Ls.
  pose proof (decimal_length_4 year Hy). pose proof (decimal_length_2 month Hmo).
  pose proof (decimal_length_2 day Hd). pose proof (decimal_length_2 hour Hh).
  pose proof (decimal_length_2 min Hmi). pose proof (decimal_length_2 sec Hs).
  specialize (Ly ltac:(lia)). specialize (Lmo ltac:(lia)).
  specialize (Ld ltac:(lia)). specialize (Lh ltac:(lia)).
  specialize (Lmi ltac:(lia)). specialize (Ls ltac:(lia)).
  destruct (appendInt [] year 4) as [|y1 [|y2 [|y3 [|y4 [|]]]]]; try discriminate Ly.
  destruct (appendInt [] month 2) as [|m1 [|m2 [|]]]; try discriminate Lmo.
  destruct (appendInt [] day 2) as [|d1 [|d2 [|]]]; try discriminate Ld.
  destruct (appendInt [] hour 2) as [|h1 [|h2 [|]]]; try discriminate Lh.
  destruct (appendInt [] min 2) as [|n1 [|n2 [|]]]; try discriminate Lmi.
  destruct (appendInt [] sec 2) as [|s1 [|s2 [|]]]; try discriminate Ls.
  repeat split.
Qed.

(** X4. A non-empty group value is written as [{k1=v1 k2=v2 ...}]: the
    entries in order, one space between two entries, none after the last;
    the entries are written as they are (no rewrite hook, no skipping). *)
Theorem appendValue_group_braces (buf : bytes) (a : Attr) (g : list Attr) :
  appendValue buf (GroupValue (a :: g))
    = buf ++ "{"%char :: entry_text a
          ++ flat_map (fun b => " "%char :: entry_text b) g ++ ["}"%char].
Proof.
  rewrite appendValue_group.
  assert (Htail : forall l i buf',
            appendEntries (S i) l buf'
              = buf' ++ flat_map (fun b => " "%char :: entry_text b) l).
  { induction l as [|[k v] l IH]; intros i buf'; simpl.
    - by rewrite app_nil_r.
    - rewrite IH, appendValue_app. unfold entry_text, append_byte, append_str.
      simpl. by rewrite <- !app_assoc. }
  destruct a as [k v]. simpl.
  rewrite Htail, appendValue_app. unfold entry_text, append_byte, append_str.
  simpl. by rewrite <- !app_assoc.
Qed.

(** X5. Composing a line only appends: the bytes already in the buffer
    stay in front, and neither the line nor the hook calls depend on
    them. *)
Theorem compose_only_appends (h : Handler) (r : Record) (buf : bytes) :
  compose h r buf = (buf ++ fst (compose h r []), snd (compose h r [])).
Proof.
  rewrite !compose_spec. simpl. rewrite header_app.
  by rewrite <- !app_assoc.
Qed.

(** X6. The whole line, as [Handle] writes it: the timestamp and a space
    when the layout is not empty and the time is set; the level and a
    space; [source=file:line] and a space when [AddSource] is on, the
    record has a pc and the frame has a file; one piece per bound
    attribute; [msg=] and the message; one piece per call attribute; a
    newline.  [msg=] follows the last bound attribute directly. *)
Theorem line_anatomy (h : Handler) (r : Record) :
  fst (compose h r [])
    = stamp_text h r
        ++ list_ascii_of_string (Level_String (r_Level r)) ++ " "%char
        :: source_text h r
        ++ flat_map (emit h (groups h)) (attrs h)
        ++ list_ascii_of_string "msg=" ++ list_ascii_of_string (r_Message r)
        ++ flat_map (emit h (groups h)) (r_Attrs r) ++ [LF].
Proof.
  rewrite compose_spec. cbn [fst].
  assert (Hhead : header h r []
            = stamp_text h r ++ list_ascii_of_string (Level_String (r_Level r))
                ++ " "%char :: source_text h r).
  { unfold header, stamp_text. rewrite appendSource_app.
    assert (Hsrc : appendSource h [] r = source_text h r).
    { unfold appendSource, source_text, strconv.AppendInt.
      destruct (AddSource (opts h) && negb (r_PC r =? 0)); [| done].
      destruct (runtime_Frame (r_PC r)) as [file line].
      destruct (negb (String.eqb file "")); [| done].
      unfold append_byte, append_str. simpl. by rewrite <- !app_assoc. }
    rewrite Hsrc.
    destruct (negb (String.eqb (TimeFormat (opts h)) "") && negb (time_IsZero (r_Time r))).
    - unfold appendTime at 1.
      destruct (String.eqb (TimeFormat (opts h)) defaultTimeFormat) eqn:Hdef.
      + apply String.eqb_eq in Hdef.
        fold (appendTime h [] (r_Time r)) in *.
        replace (let '(year, month, day) := time_Date (r_Time r) in _)
          with (default_stamp (r_Time r)).
        * unfold append_byte, append_str. by rewrite <- !app_assoc.
        * rewrite <- (appendTime_default h) by done.
          unfold appendTime. by rewrite Hdef, String.eqb_refl.
      + unfold append_byte, append_str. simpl. by rewrite <- !app_assoc.
    - unfold append_byte, append_str. simpl. by rewrite <- !app_assoc. }
  rewrite Hhead. by rewrite <- !app_assoc.
Qed.

Lemma isZeroAttr_iff (a : Attr) : isZeroAttr a = true <-> a = zeroAttr.
Proof.
  destruct a as [k v]. unfold isZeroAttr, zeroAttr. simpl. split.
  - intros [Hk Hv]%andb_prop. apply String.eqb_eq in Hk. subst k.
    destruct v as [| | | | | | | |[x|]|]; try discriminate. reflexivity.
  - intros [= -> ->]. reflexivity.
Qed.

(** X7. An attribute is left out exactly when the attribute to encode (the
    hook's result when a hook is set) is the zero [Attr]; an empty key or
    an empty value alone does not leave it out. *)
Theorem appendAttr_omits_only_zero (h : Handler) (buf : bytes)
    (groups : list string) (a : Attr) :
  fst (appendAttr h buf groups a) = buf <-> rewrite_attr h groups a = zeroAttr.
Proof.
  rewrite appendAttr_spec. cbn [fst]. unfold emit.
  rewrite <- isZeroAttr_iff.
  destruct (isZeroAttr (rewrite_attr h groups a)).
  - rewrite app_nil_r. done.
  - split; [| discriminate].
    intros Heq. apply (f_equal length) in Heq.
    rewrite length_app in Heq. unfold attr_text in Heq. simpl in Heq. lia.
Qed.

End EncoderShape.

(** * Further properties of handlers *)

Section HandlerProperties.
Context {E : Externals}.

Lemma Handle_run (σ : Heap) (p : loc) (r : Record) (h : Handler) (pl : Pool) (w : Sink) :
  handlers σ !! p = Some h -> mu h = false ->
  pools σ !! pool h = Some pl -> sinks σ !! out h = Some w ->
  let line := fst (compose h r []) in
  Handle p r σ
    = Some (snd (io_Write w line),
            {| handlers := handlers σ;
               pools := <[pool h := line :: snd (pool_Get pl)]> (pools σ);
               sinks := <[out h := fst (io_Write w line)]> (sinks σ);
               levelVars := levelVars σ |}).
Proof.
  intros Hp Hmu Hpl Hw line. unfold Handle.
  rewrite Hp. simpl. rewrite Hpl. simpl.
  destruct (pool_Get pl) as [bufp pl'].
  rewrite Hmu, take_0. fold line. rewrite Hw. simpl.
  by destruct (io_Write w line).
Qed.

(** X8. Entering group [a] and then group [b] gives the path [a.b]: the
    handler keeps its bound attributes, its group path grows by [a] then
    [b], and a call attribute [k=v] is written as [ <path>a.b.k=v]. *)
Theorem WithGroup_nests (σ : Heap) (p : loc) (h : Handler) (a b : string) :
  handlers σ !! p = Some h -> a <> ""%string -> b <> ""%string ->
  exists p1 σ1 p2 σ2 h2,
    WithGroup p a σ = Some (p1, σ1) /\
    WithGroup p1 b σ1 = Some (p2, σ2) /\
    handlers σ2 !! p2 = Some h2 /\
    groups h2 = groups h ++ [a; b] /\ attrs h2 = attrs h /\
    (ReplaceAttr (opts h) = None ->
     forall k v buf,
       fst (appendAttr h2 buf (groups h2) (mkAttr k (StringValue v)))
         = buf ++ " "%char :: group_prefix (groups h)
               ++ list_ascii_of_string a ++ "."%char
               :: list_ascii_of_string b ++ "."%char
               :: list_ascii_of_string k ++ "="%char :: list_ascii_of_string v).
Proof.
  intros Hp Ha Hb.
  set (ha := {| opts := opts h; mu := false; out := out h; pool := pool h;
                groups := groups h ++ [a]; attrs := attrs h |}).
  set (hb := {| opts := opts h; mu := false; out := out h; pool := pool h;
                groups := (groups h ++ [a]) ++ [b]; attrs := attrs h |}).
  exists (fst (alloc_handler ha σ)), (snd (alloc_handler ha σ)).
  exists (fst (alloc_handler hb (snd (alloc_handler ha σ)))),
    (snd (alloc_handler hb (snd (alloc_handler ha σ)))), hb.
  split; [exact (WithGroup_alloc σ p h a Hp Ha) |].
  split.
  { rewrite (WithGroup_alloc _ _ ha); [done | apply alloc_handler_new | done]. }
  split; [apply alloc_handler_new |].
  split; [simpl; by rewrite <- app_assoc |].
  split; [done |].
  intros Hf k v buf. rewrite appendAttr_spec. cbn [fst].
  unfold emit, rewrite_attr. simpl. rewrite Hf.
  unfold isZeroAttr. simpl. rewrite andb_false_r.
  unfold attr_text, group_prefix. simpl.
  rewrite !flat_map_app. simpl. rewrite !app_nil_r.
  by rewrite <- !app_assoc.
Qed.

(** X9. Binding attributes and entering a group commute: both orders end
    in handlers with the same options, destination, pool, group path and
    bound attributes, hence the same line for every record. *)
Theorem WithAttrs_WithGroup_commute (σ : Heap) (p : loc) (h : Handler)
    (A : list Attr) (name : string) :
  handlers σ !! p = Some h -> A <> [] -> name <> ""%string ->
  exists p1 σ1 p2 σ2 q1 τ1 q2 τ2 h2,
    WithAttrs p A σ = Some (p1, σ1) /\ WithGroup p1 name σ1 = Some (p2, σ2) /\
    WithGroup p name σ = Some (q1, τ1) /\ WithAttrs q1 A τ1 = Some (q2, τ2) /\
    handlers σ2 !! p2 = Some h2 /\ handlers τ2 !! q2 = Some h2 /\
    groups h2 = groups h ++ [name] /\ attrs h2 = attrs h ++ A.
Proof.
  intros Hp HA Hn.
  set (hA := {| opts := opts h; mu := false; out := out h; pool := pool h;
                groups := groups h; attrs := attrs h ++ A |}).
  set (hG := {| opts := opts h; mu := false; out := out h; pool := pool h;
                groups := groups h ++ [name]; attrs := attrs h |}).
  set (h2 := {| opts := opts h; mu := false; out := out h; pool := pool h;
                groups := groups h ++ [name]; attrs := attrs h ++ A |}).
  exists (fst (alloc_handler hA σ)), (snd (alloc_handler hA σ)).
  exists (fst (alloc_handler h2 (snd (alloc_handler hA σ)))),
    (snd (alloc_handler h2 (snd (alloc_handler hA σ)))).
  exists (fst (alloc_handler hG σ)), (snd (alloc_handler hG σ)).
  exists (fst (alloc_handler h2 (snd (alloc_handler hG σ)))),
    (snd (alloc_handler h2 (snd (alloc_handler hG σ)))), h2.
  split; [exact (WithAttrs_alloc σ p h A Hp HA) |].
  split.
  { rewrite (WithGroup_alloc _ _ hA); [done | apply alloc_handler_new | done]. }
  split; [exact (WithGroup_alloc σ p h name Hp Hn) |].
  split.
  { rewrite (WithAttrs_alloc _ _ hG); [done | apply alloc_handler_new | done]. }
  split; [apply alloc_handler_new |].
  split; [apply alloc_handler_new |]. done.
Qed.

(** X10. Binding [A] and then [B] is binding [A ++ B]: the bound
    attributes are the old ones, then [A], then [B], and the handler is the
    one a single [WithAttrs] of [A ++ B] builds. *)
Theorem WithAttrs_accumulates (σ : Heap) (p : loc) (h : Handler) (A B : list Attr) :
  handlers σ !! p = Some h -> A <> [] -> B <> [] ->
  exists p1 σ1 p2 σ2 q τ h2,
    WithAttrs p A σ = Some (p1, σ1) /\ WithAttrs p1 B σ1 = Some (p2, σ2) /\
    WithAttrs p (A ++ B) σ = Some (q, τ) /\
    handlers σ2 !! p2 = Some h2 /\ handlers τ !! q = Some h2 /\
    attrs h2 = attrs h ++ A ++ B /\ groups h2 = groups h.
Proof.
  intros Hp HA HB.
  set (hA := {| opts := opts h; mu := false; out := out h; pool := pool h;
                groups := groups h; attrs := attrs h ++ A |}).
  set (h2 := {| opts := opts h; mu := false; out := out h; pool := pool h;
                groups := groups h; attrs := attrs h ++ A ++ B |}).
  exists (fst (alloc_handler hA σ)), (snd (alloc_handler hA σ)).
  exists (fst (alloc_handler h2 (snd (alloc_handler hA σ)))),
    (snd (alloc_handler h2 (snd (alloc_handler hA σ)))).
  exists (fst (alloc_handler h2 σ)), (snd (alloc_handler h2 σ)), h2.
  split; [exact (WithAttrs_alloc σ p h A Hp HA) |].
  split.
  { rewrite (WithAttrs_alloc _ _ hA); [| apply alloc_handler_new | done].
    simpl. by rewrite <- app_assoc. }
  split.
  { apply WithAttrs_alloc; [done |]. by destruct A. }
  split; [apply alloc_handler_new |].
  split; [apply alloc_handler_new |]. done.
Qed.

Lemma Enabled_by_options (σ σ' : Heap) (p p' : loc) (h h' : Handler) (level : Z) :
  handlers σ !! p = Some h -> handlers σ' !! p' = Some h' ->
  Level (opts h') = Level (opts h) -> levelVars σ' = levelVars σ ->
  Enabled p' level σ' = Enabled p level σ.
Proof.
  intros Hp Hp' HL Hv. unfold Enabled. rewrite Hp, Hp'. simpl. rewrite HL.
  destruct (Level (opts h)) as [[l|v]|]; simpl; try done. by rewrite Hv.
Qed.

Lemma derived_handler (σ σ' : Heap) (p p' : loc) (h : Handler)
    (A : list Attr) (name : string) :
  handlers σ !! p = Some h ->
  WithAttrs p A σ = Some (p', σ') \/ WithGroup p name σ = Some (p', σ') ->
  exists h', handlers σ' !! p' = Some h' /\ opts h' = opts h /\
             out h' = out h /\ pool h' = pool h /\
             levelVars σ' = levelVars σ /\ handlers σ' !! p = Some h /\
             pools σ' = pools σ /\ sinks σ' = sinks σ /\
             (mu h = false -> mu h' = false).
Proof.
  intros Hp [HW|HW].
  - unfold WithAttrs in HW. rewrite Hp in HW. simpl in HW.
    destruct (length A =? 0)%nat.
    + injection HW as <- <-. by exists h.
    + injection HW as <- <-. eexists. split; [apply alloc_handler_new |].
      repeat split. by apply lookup_app_l_Some.
  - unfold WithGroup in HW. rewrite Hp in HW. simpl in HW.
    destruct (String.eqb name "").
    + injection HW as <- <-. by exists h.
    + injection HW as <- <-. eexists. split; [apply alloc_handler_new |].
      repeat split. by apply lookup_app_l_Some.
Qed.

(** X11. A derived handler filters like its parent: [WithAttrs] and
    [WithGroup] copy the options, the level variable included, so
    [Enabled] answers the same on both, also after the variable changes. *)
Theorem derived_handler_same_threshold (σ σ' : Heap) (p p' : loc) (h : Handler)
    (A : list Attr) (name : string) (level : Z) :
  handlers σ !! p = Some h ->
  WithAttrs p A σ = Some (p', σ') \/ WithGroup p name σ = Some (p', σ') ->
  Enabled p' level σ' = Enabled p level σ /\
  forall v l, Enabled p' level (LevelVar_Set v l σ')
                = Enabled p level (LevelVar_Set v l σ).
Proof.
  intros Hp HW.
  destruct (derived_handler σ σ' p p' h A name Hp HW)
    as (h' & Hp' & Ho & _ & _ & Hv & _ & _ & _ & _).
  split.
  - eapply Enabled_by_options; eauto. by rewrite Ho.
  - intros v l. eapply Enabled_by_options; simpl; eauto.
    + by rewrite Ho.
    + by rewrite Hv.
Qed.

(** X12. [New] builds a handler with no groups and no bound attributes,
    a free mutex and a pool of its own that no earlier handler can name;
    it keeps the options it was given, except that an empty [TimeFormat]
    becomes the default layout; and it changes nothing that existed. *)
Theorem New_fresh_handler (out_ : loc) (o : option Options) (σ : Heap) :
  let p := fst (New out_ o σ) in
  let σ' := snd (New out_ o σ) in
  let given := match o with Some o' => o' | None => Options_zero end in
  exists h,
    handlers σ' !! p = Some h /\ handlers σ !! p = None /\
    groups h = [] /\ attrs h = [] /\ mu h = false /\ out h = out_ /\
    pools σ' !! pool h = Some [] /\ pools σ !! pool h = None /\
    Level (opts h) = Level given /\ AddSource (opts h) = AddSource given /\
    ReplaceAttr (opts h) = ReplaceAttr given /\
    TimeFormat (opts h)
      = (if String.eqb (TimeFormat given) "" then defaultTimeFormat
         else TimeFormat given) /\
    (forall q hq, handlers σ !! q = Some hq -> handlers σ' !! q = Some hq) /\
    (forall q pl, pools σ !! q = Some pl -> pools σ' !! q = Some pl) /\
    sinks σ' = sinks σ /\ levelVars σ' = levelVars σ.
Proof.
  intros p σ' given. unfold p, σ', New. cbn [fst snd handlers pools sinks levelVars].
  eexists.
  split; [by apply list_lookup_middle |].
  split; [by apply lookup_ge_None_2 |].
  cbn [groups attrs mu out pool opts]. fold given.
  split; [done |]. split; [done |]. split; [done |]. split; [done |].
  split; [by apply list_lookup_middle |].
  split; [by apply lookup_ge_None_2 |].
  split; [by destruct (String.eqb (TimeFormat given) "") |].
  split; [by destruct (String.eqb (TimeFormat given) "") |].
  split; [by destruct (String.eqb (TimeFormat given) "") |].
  split; [by destruct (String.eqb (TimeFormat given) "") |].
  split; [intros q hq Hq; by apply lookup_app_l_Some |].
  split; [intros q pl Hq; by apply lookup_app_l_Some |].
  done.
Qed.

(** X13. A handler built without a level lets [Info] and above through
    and filters [Debug]; built with a constant level [l] it lets exactly
    the levels from [l] up through.  [Enabled] is monotone in the level. *)
Theorem New_threshold (out_ : loc) (o : option Options) (σ : Heap) (level : Z) :
  let p := fst (New out_ o σ) in
  let σ' := snd (New out_ o σ) in
  Enabled p level σ'
    = match o with
      | Some {| Level := Some (LevelConst l) |} => Some (l <=? level)
      | Some {| Level := Some (LevelVarPtr v) |} =>
          t ← levelVars σ !! v; Some (t <=? level)
      | _ => Some (LevelInfo <=? level)
      end /\
  forall level', Enabled p level σ' = Some true -> level <= level' ->
                 Enabled p level' σ' = Some true.
Proof.
  intros p σ'.
  assert (Hall : forall lv, Enabled p lv σ'
    = match o with
      | Some {| Level := Some (LevelConst l) |} => Some (l <=? lv)
      | Some {| Level := Some (LevelVarPtr v) |} =>
          t ← levelVars σ !! v; Some (t <=? lv)
      | _ => Some (LevelInfo <=? lv)
      end).
  { intros lv. unfold Enabled, p, σ', New. simpl.
    rewrite lookup_app_r by lia. rewrite Nat.sub_diag. simpl.
    destruct o as [[[[l|v]|] tf src hook]|]; simpl;
      try destruct (String.eqb tf ""); reflexivity. }
  split; [apply Hall |].
  intros level' Hen Hle. rewrite Hall in *.
  destruct o as [[[[l|v]|] tf src hook]|]; simpl in *.
  - injection Hen as Hen. f_equal. lia.
  - destruct (levelVars σ !! v); simpl in *; [| discriminate].
    injection Hen as Hen. f_equal. lia.
  - injection Hen as Hen. f_equal. unfold LevelInfo in *. lia.
  - injection Hen as Hen. f_equal. unfold LevelInfo in *. lia.
Qed.

(** X14. [NewLevelVar(l)] allocates a variable that reads [l] and leaves
    the other variables alone; a handler built with it lets exactly the
    levels from [l] up through. *)
Theorem NewLevelVar_sets_threshold (l : Z) (σ : Heap) :
  let v := fst (NewLevelVar l σ) in
  let σ1 := snd (NewLevelVar l σ) in
  levelVars σ1 !! v = Some l /\ levelVars σ !! v = None /\
  (forall u x, levelVars σ !! u = Some x -> levelVars σ1 !! u = Some x) /\
  handlers σ1 = handlers σ /\ pools σ1 = pools σ /\ sinks σ1 = sinks σ /\
  forall out_ tf src hook level,
    let o := {| Level := Some (LevelVarPtr v); TimeFormat := tf;
                AddSource := src; ReplaceAttr := hook |} in
    Enabled (fst (New out_ (Some o) σ1)) level (snd (New out_ (Some o) σ1))
      = Some (l <=? level).
Proof.
  intros v σ1. unfold v, σ1, NewLevelVar, LevelVar_Set. simpl.
  assert (Hv : <[length (levelVars σ) := l]> (levelVars σ ++ [0])
               = levelVars σ ++ [l]).
  { replace (length (levelVars σ)) with (length (levelVars σ) + 0)%nat at 1 by lia.
    by rewrite insert_app_r. }
  rewrite Hv.
  assert (Hl : (levelVars σ ++ [l]) !! length (levelVars σ) = Some l).
  { rewrite lookup_app_r by lia. by rewrite Nat.sub_diag. }
  repeat split; try done.
  - apply lookup_ge_None_2. lia.
  - intros u x Hu. by apply lookup_app_l_Some.
  - intros out_ tf src hook level. unfold Enabled, New. simpl.
    rewrite lookup_app_r by lia. rewrite Nat.sub_diag. simpl.
    destruct (String.eqb tf ""); simpl; by rewrite Hl.
Qed.

(** X16. Two calls in a row on a free handler both return, whatever the
    first write returned; the second line is composed from an empty
    buffer, whichever buffer the pool hands out, so nothing of the first
    line reaches it; the destination receives the first line and then the
    second; and after each call the buffer holding that call's line is in
    the pool. *)
Theorem Handle_twice_reuses_buffer (σ : Heap) (p : loc) (r1 r2 : Record)
    (h : Handler) (pl : Pool) (w : Sink) :
  handlers σ !! p = Some h -> mu h = false ->
  pools σ !! pool h = Some pl -> sinks σ !! out h = Some w ->
  let l1 := fst (compose h r1 []) in
  let l2 := fst (compose h r2 []) in
  let w1 := fst (io_Write w l1) in
  exists σ1 σ2 rest1 rest2,
    Handle p r1 σ = Some (snd (io_Write w l1), σ1) /\
    Handle p r2 σ1 = Some (snd (io_Write w1 l2), σ2) /\
    pools σ1 !! pool h = Some (l1 :: rest1) /\
    pools σ2 !! pool h = Some (l2 :: rest2) /\
    sinks σ1 !! out h = Some w1 /\
    sinks σ2 !! out h = Some (fst (io_Write w1 l2)).
Proof.
  intros Hp Hmu Hpl Hw l1 l2 w1.
  assert (Hpl_lt : (pool h < length (pools σ))%nat) by (by eapply lookup_lt_Some).
  assert (Hw_lt : (out h < length (sinks σ))%nat) by (by eapply lookup_lt_Some).
  set (pl1 := l1 :: snd (pool_Get pl)).
  eexists. eexists. exists (snd (pool_Get pl)), (snd (pool_Get pl1)).
  split; [apply (Handle_run σ p r1 h pl w); assumption |].
  split.
  { rewrite (Handle_run _ p r2 h pl1 w1); cbn [handlers pools sinks]; try done.
    - by rewrite list_lookup_insert_eq.
    - by rewrite list_lookup_insert_eq. }
  cbn [handlers pools sinks]. repeat split.
  - by rewrite list_lookup_insert_eq.
  - rewrite list_insert_insert_eq. by rewrite list_lookup_insert_eq.
  - by rewrite list_lookup_insert_eq.
  - rewrite list_insert_insert_eq. by rewrite list_lookup_insert_eq.
Qed.

(** X17. A derived handler writes to its parent's destination and parks
    its buffer in its parent's pool: after [Handle] on the derived handler
    the shared pool holds the derived handler's line and the shared
    destination has received it. *)
Theorem derived_handler_shares_pool_and_destination (σ σ' : Heap) (p p' : loc)
    (h : Handler) (A : list Attr) (name : string) (r : Record) (pl : Pool) (w : Sink) :
  handlers σ !! p = Some h -> mu h = false ->
  pools σ !! pool h = Some pl -> sinks σ !! out h = Some w ->
  WithAttrs p A σ = Some (p', σ') \/ WithGroup p name σ = Some (p', σ') ->
  exists h' σ2,
    handlers σ' !! p' = Some h' /\ out h' = out h /\ pool h' = pool h /\
    let line := fst (compose h' r []) in
    Handle p' r σ' = Some (snd (io_Write w line), σ2) /\
    pools σ2 !! pool h = Some (line :: snd (pool_Get pl)) /\
    sinks σ2 !! out h = Some (fst (io_Write w line)).
Proof.
  intros Hp Hmu Hpl Hw HW.
  destruct (derived_handler σ σ' p p' h A name Hp HW)
    as (h' & Hp' & _ & Ho & Hpo & _ & _ & Hpools & Hsinks & Hmu').
  exists h'. eexists. split; [exact Hp' |]. split; [exact Ho |]. split; [exact Hpo |].
  intros line. split.
  - apply (Handle_run σ' p' r h' pl w); try done.
    + by apply Hmu'.
    + by rewrite Hpools, Hpo.
    + by rewrite Hsinks, Ho.
  - simpl. rewrite Hpools, Hsinks, Hpo, Ho. split.
    + rewrite list_lookup_insert_eq; [done |]. by eapply lookup_lt_Some.
    + rewrite list_lookup_insert_eq; [done |]. by eapply lookup_lt_Some.
Qed.

End HandlerProperties.

(** * Further properties of concurrent calls *)

Section ConcurrencyProperties.
Context {E : Externals}.

Lemma text_prefix (l : bytes) (ph : phase) :
  wf_phase l ph -> exists k, l = text l ph ++ k.
Proof.
  destruct ph as [|pre suf|]; simpl; intros Hwf.
  - by exists l.
  - by exists suf.
  - exists []. by rewrite app_nil_r.
Qed.

Lemma in_section_prog (p w : loc) (l : bytes) (ph : phase) :
  in_section (prog p w l ph) = inside ph.
Proof. destruct ph as [|pre [|c suf]|]; reflexivity. Qed.

Lemma two_calls_serial_inv (σ : Heap) (p : loc) (h : Handler) (r1 r2 : Record)
    (c c' : Conf) (sched : list nat) :
  handlers σ !! p = Some h -> mu h = false ->
  (out h < length (sinks σ))%nat ->
  two_calls σ p p r1 r2 = Some c -> run sched c = Some c' ->
  serial_inv p (out h) (fst (compose h r1 [])) (fst (compose h r2 [])) c'.
Proof.
  intros Hp Hmu Hout Hc Hrun.
  unfold two_calls in Hc. rewrite Hp in Hc. simpl in Hc. injection Hc as <-.
  eapply serial_inv_run; [| exact Hrun].
  exists Idle, Idle, h, []. simpl. repeat split; auto.
  by apply lookup_replicate_2.
Qed.

(** X18. Two goroutines calling [Handle] on the same handler: in every
    state any schedule can reach, finished or not, at most one of them is
    between its [Lock] and its [Unlock], and the destination holds a
    prefix of one whole line followed by the other. *)
Theorem same_handler_writes_whole_lines (σ : Heap) (p : loc) (h : Handler)
    (r1 r2 : Record) (c c' : Conf) (sched : list nat) :
  handlers σ !! p = Some h -> mu h = false ->
  (out h < length (sinks σ))%nat ->
  two_calls σ p p r1 r2 = Some c -> run sched c = Some c' ->
  let l1 := fst (compose h r1 []) in
  let l2 := fst (compose h r2 []) in
  exists d t0 t1,
    c_dests c' !! out h = Some d /\
    ((exists k, l1 ++ l2 = d ++ k) \/ (exists k, l2 ++ l1 = d ++ k)) /\
    c_threads c' = [t0; t1] /\
    in_section t0 && in_section t1 = false.
Proof.
  intros Hp Hmu Hout Hc Hrun l1 l2.
  destruct (two_calls_serial_inv σ p h r1 r2 c c' sched Hp Hmu Hout Hc Hrun)
    as (ph1 & ph2 & h' & d & Hth & Hwf1 & Hwf2 & _ & _ & Hd & Hord).
  fold l1 l2 in Hth, Hwf1, Hwf2, Hord.
  exists d, (prog p (out h) l1 ph1), (prog p (out h) l2 ph2).
  split; [exact Hd |].
  destruct (text_prefix l1 ph1 Hwf1) as [k1 Hk1].
  destruct (text_prefix l2 ph2 Hwf2) as [k2 Hk2].
  rewrite !in_section_prog.
  split; [| split; [exact Hth |]].
  - destruct Hord as [[-> [-> | ->]] | [-> [-> | ->]]]; simpl in *.
    + left. exists (k1 ++ l2). rewrite app_nil_r, Hk1 at 1.
      by rewrite <- app_assoc.
    + left. exists k2. rewrite Hk2 at 1. by rewrite <- app_assoc.
    + right. exists (k2 ++ l1). rewrite app_nil_r, Hk2 at 1.
      by rewrite <- app_assoc.
    + right. exists k1. rewrite Hk1 at 1. by rewrite <- app_assoc.
  - destruct Hord as [[_ [-> | ->]] | [_ [-> | ->]]]; simpl;
      rewrite ?andb_false_r; reflexivity.
Qed.

(** X19. Two goroutines calling [Handle] on the same handler never
    deadlock: in every reachable state that is not finished one of them can
    take a step; and when both have finished the mutex is free again. *)
Theorem same_handler_never_deadlocks (σ : Heap) (p : loc) (h : Handler)
    (r1 r2 : Record) (c c' : Conf) (sched : list nat) :
  handlers σ !! p = Some h -> mu h = false ->
  (out h < length (sinks σ))%nat ->
  two_calls σ p p r1 r2 = Some c -> run sched c = Some c' ->
  (finished c' = false -> exists i c'', step i c' = Some c'') /\
  (finished c' = true -> exists h', c_handlers c' !! p = Some h' /\ mu h' = false).
Proof.
  intros Hp Hmu Hout Hc Hrun.
  destruct (two_calls_serial_inv σ p h r1 r2 c c' sched Hp Hmu Hout Hc Hrun)
    as (ph1 & ph2 & h' & d & Hth & Hwf1 & Hwf2 & Hh & Hmu' & Hd & Hord).
  split.
  - intros Hfin. unfold finished in Hfin. rewrite Hth in Hfin.
    destruct ph1 as [|pre1 suf1|].
    + destruct ph2 as [|pre2 suf2|].
      * exists 0%nat. unfold step. rewrite Hth. simpl. rewrite Hh. simpl.
        simpl in Hmu'. rewrite Hmu'. eexists. reflexivity.
      * exists 1%nat. unfold step. rewrite Hth. simpl.
        destruct suf2 as [|ch suf2]; simpl.
        -- rewrite Hh. simpl. eexists. reflexivity.
        -- rewrite Hd. simpl. eexists. reflexivity.
      * exists 0%nat. unfold step. rewrite Hth. simpl. rewrite Hh. simpl.
        simpl in Hmu'. rewrite Hmu'. eexists. reflexivity.
    + exists 0%nat. unfold step. rewrite Hth. simpl.
      destruct suf1 as [|ch suf1]; simpl.
      * rewrite Hh. simpl. eexists. reflexivity.
      * rewrite Hd. simpl. eexists. reflexivity.
    + destruct ph2 as [|pre2 suf2|].
      * exists 1%nat. unfold step. rewrite Hth. simpl. rewrite Hh. simpl.
        simpl in Hmu'. rewrite Hmu'. eexists. reflexivity.
      * exists 1%nat. unfold step. rewrite Hth. simpl.
        destruct suf2 as [|ch suf2]; simpl.
        -- rewrite Hh. simpl. eexists. reflexivity.
        -- rewrite Hd. simpl. eexists. reflexivity.
      * simpl in Hfin. discriminate.
  - intros Hfin. unfold finished in Hfin. rewrite Hth in Hfin.
    exists h'. split; [exact Hh |].
    rewrite Hmu'.
    destruct ph1 as [|pre1 [|ch1 suf1]|]; simpl in Hfin; try discriminate.
    destruct ph2 as [|pre2 [|ch2 suf2]|]; simpl in Hfin; try discriminate.
    reflexivity.
Qed.

End ConcurrencyProperties.

(** * Further concrete runs *)

Section MoreRuns.
Import Sample.
#[local] Existing Instance sample.

Lemma appendInt_negative_pads_before_sign_witness :
  -5 < 0 /\ string_of_list_ascii (appendInt [] (-5) 4) = "00-5"%string.
Proof.
  split; [lia |].
  rewrite (appendInt_negative_pads_before_sign [] (-5) 4) by lia.
  reflexivity.
Defined.

Lemma appendTime_default_is_19_bytes_witness :
  exists stamp,
    appendTime h1 (list_ascii_of_string ">") t_2025
      = list_ascii_of_string ">" ++ stamp /\ length stamp = 19%nat /\
    stamp !! 4%nat = Some "/"%char /\ stamp !! 7%nat = Some "/"%char /\
    stamp !! 10%nat = Some " "%char /\
    stamp !! 13%nat = Some ":"%char /\ stamp !! 16%nat = Some ":"%char.
Proof.
  apply (appendTime_default_is_19_bytes h1 (list_ascii_of_string ">") t_2025).
  - reflexivity.
  - unfold fits_layout. simpl. lia.
Defined.

Example group_value_text :
  string_of_list_ascii (appendValue [] (GroupValue user_group)) = "{name=ann age=7}"%string.
Proof. reflexivity. Qed.

Example development_line :
  line h_dev warn_at_42
    = ("2025/11/14 14:03:14 WARN source=main.go:42 msg=m db.k=true" ++ nl)%string.
Proof. vm_compute. reflexivity. Qed.

Lemma WithGroup_nests_witness :
  exists p1 σ1 p2 σ2 h2,
    WithGroup 0 "database" heap1 = Some (p1, σ1) /\
    WithGroup p1 "query" σ1 = Some (p2, σ2) /\
    handlers σ2 !! p2 = Some h2 /\
    groups h2 = ["database"; "query"]%string /\
    fst (appendAttr h2 [] (groups h2) (String_ "table" "users"))
      = list_ascii_of_string " database.query.table=users".
Proof.
  destruct (WithGroup_nests heap1 0 h1 "database" "query" eq_refl)
    as (p1 & σ1 & p2 & σ2 & h2 & H1 & H2 & H3 & H4 & _ & H5); try discriminate.
  exists p1, σ1, p2, σ2, h2. repeat split; try assumption.
  unfold String_. rewrite (H5 eq_refl). reflexivity.
Defined.

Lemma WithAttrs_WithGroup_commute_witness :
  exists p1 σ1 p2 σ2 q1 τ1 q2 τ2 h2,
    WithAttrs 0 [String_ "service" "api"] heap1 = Some (p1, σ1) /\
    WithGroup p1 "request" σ1 = Some (p2, σ2) /\
    WithGroup 0 "request" heap1 = Some (q1, τ1) /\
    WithAttrs q1 [String_ "service" "api"] τ1 = Some (q2, τ2) /\
    handlers σ2 !! p2 = Some h2 /\ handlers τ2 !! q2 = Some h2.
Proof.
  destruct (WithAttrs_WithGroup_commute heap1 0 h1 [String_ "service" "api"]
              "request" eq_refl)
    as (p1 & σ1 & p2 & σ2 & q1 & τ1 & q2 & τ2 & h2 & H1 & H2 & H3 & H4 & H5 & H6 & _);
    try discriminate.
  exists p1, σ1, p2, σ2, q1, τ1, q2, τ2, h2. repeat split; assumption.
Defined.

Lemma WithAttrs_accumulates_witness :
  exists p1 σ1 p2 σ2 q τ h2,
    WithAttrs 0 [String_ "service" "api"] heap1 = Some (p1, σ1) /\
    WithAttrs p1 [String_ "version" "1.0.0"] σ1 = Some (p2, σ2) /\
    WithAttrs 0 [String_ "service" "api"; String_ "version" "1.0.0"] heap1 = Some (q, τ) /\
    handlers σ2 !! p2 = Some h2 /\ handlers τ !! q = Some h2 /\
    attrs h2 = [String_ "service" "api"; String_ "version" "1.0.0"].
Proof.
  destruct (WithAttrs_accumulates heap1 0 h1 [String_ "service" "api"]
              [String_ "version" "1.0.0"] eq_refl)
    as (p1 & σ1 & p2 & σ2 & q & τ & h2 & H1 & H2 & H3 & H4 & H5 & H6 & _);
    try discriminate.
  exists p1, σ1, p2, σ2, q, τ, h2. repeat split; assumption.
Defined.

Lemma derived_handler_same_threshold_witness :
  Enabled (fst derived_lv) LevelDebug (snd derived_lv) = Enabled 0 LevelDebug heap_lv /\
  Enabled (fst derived_lv) LevelDebug (LevelVar_Set 0 LevelDebug (snd derived_lv))
    = Some true.
Proof.
  destruct (derived_handler_same_threshold heap_lv (snd derived_lv) 0 (fst derived_lv)
              h_lv [String_ "service" "api"] "" LevelDebug eq_refl
              (or_introl eq_refl)) as [H1 H2].
  split; [exact H1 |]. rewrite H2. reflexivity.
Defined.

Lemma Handle_twice_reuses_buffer_witness :
  exists σ1 σ2 rest1 rest2,
    Handle 0 (info "one" []) heap_full = Some (Some "disk full"%string, σ1) /\
    Handle 0 (info "two" []) σ1 = Some (Some "disk full"%string, σ2) /\
    pools σ1 !! 0%nat
      = Some (list_ascii_of_string ("INFO msg=one" ++ nl)%string :: rest1) /\
    pools σ2 !! 0%nat
      = Some (list_ascii_of_string ("INFO msg=two" ++ nl)%string :: rest2).
Proof.
  destruct (Handle_twice_reuses_buffer heap_full 0 (info "one" []) (info "two" [])
              h1 [] failing_sink eq_refl eq_refl eq_refl eq_refl)
    as (σ1 & σ2 & rest1 & rest2 & H1 & H2 & H3 & H4 & _).
  exists σ1, σ2, rest1, rest2. repeat split; assumption.
Defined.

Lemma derived_handler_shares_pool_and_destination_witness :
  exists h' σ2,
    handlers (snd derived_lv) !! fst derived_lv = Some h' /\
    Handle (fst derived_lv) (info "hello" []) (snd derived_lv) = Some (None, σ2) /\
    pools σ2 !! 0%nat
      = Some [list_ascii_of_string ("INFO  service=apimsg=hello" ++ nl)%string].
Proof.
  destruct (derived_handler_shares_pool_and_destination heap_lv (snd derived_lv) 0
              (fst derived_lv) h_lv [String_ "service" "api"] "" (info "hello" [])
              [] {| content := []; failure := None |}
              eq_refl eq_refl eq_refl eq_refl (or_introl eq_refl))
    as (h' & σ2 & H1 & _ & _ & H2 & H3 & _).
  exists h', σ2. split; [exact H1 |].
  assert (Hh : h' = {| opts := opts h_lv; mu := false; out := 0; pool := 0;
                       groups := []; attrs := [String_ "service" "api"] |}).
  { vm_compute in H1. by injection H1 as <-. }
  subst h'. split; [exact H2 | exact H3].
Defined.

Lemma same_handler_writes_whole_lines_witness :
  exists d, c_dests calls_same_midway !! 0%nat = Some d /\
    ((exists k, list_ascii_of_string ("INFO msg=x" ++ nl ++ "INFO msg=y" ++ nl)%string
                = d ++ k) \/
     (exists k, list_ascii_of_string ("INFO msg=y" ++ nl ++ "INFO msg=x" ++ nl)%string
                = d ++ k)).
Proof.
  destruct (same_handler_writes_whole_lines heap1 0 h1 (info "x" []) (info "y" [])
              calls_same calls_same_midway [0; 0; 0; 0; 0]%nat
              eq_refl eq_refl (le_n 1) eq_refl eq_refl)
    as (d & t0 & t1 & Hd & Hpre & _).
  exists d. split; [exact Hd | exact Hpre].
Defined.

Lemma same_handler_never_deadlocks_witness :
  finished calls_same_midway = false /\
  exists i c'', step i calls_same_midway = Some c''.
Proof.
  split; [reflexivity |].
  apply (same_handler_never_deadlocks heap1 0 h1 (info "x" []) (info "y" [])
           calls_same calls_same_midway [0; 0; 0; 0; 0]%nat
           eq_refl eq_refl (le_n 1) eq_refl eq_refl).
  reflexivity.
Defined.

End MoreRuns.
